(** * unir.py: integration of SPARQL result files into one property graph

    A shallow embedding of [src/unir.py] and the properties of its
    integration core: the value extractor ([get_value], [extract_qid],
    [extract_pid]), the file loader ([load_json_any]), the sanitizer
    ([sanitize_scalar]) and the graph builder ([KGBuilder] with
    [ensure_node], [add_edge], [process_row] and [build]).

    Python is dynamically typed, so the embedding works on the values that
    [json.load] produces and keeps the exceptions that the code can raise:
    a call that raises leaves the builder as it was at that point, which is
    what the [try]/[except] blocks of [build] then go on with. *)

From Stdlib Require Import Ascii String QArith Qcanon.
From stdpp Require Import base gmap sets list strings pretty sorting.

Set Warnings "-register-all,-clear-no-such-hyp".
Local Open Scope nat_scope.

(** * The program *)

(** ** Text

    A Python [str] is a sequence of Unicode characters.  It is held here by
    the bytes of its UTF-8 encoding, one to four for a character (a lone
    surrogate, which [json.load] hands on from an escape, by the three bytes
    that encoding gives it).  Comparing two texts byte by byte is comparing
    them character by character, as Python does, and a character below 128
    is its own byte and is no part of another character. *)

Definition byte (c : ascii) : N := N_of_ascii c.

(** A byte that continues a character, and the six bits it brings. *)
Definition is_cont (c : ascii) : bool := (128 <=? byte c)%N && (byte c <? 192)%N.
Definition cont (c : ascii) : N := (byte c - 128)%N.

Definition code2 (a b : ascii) : N := ((byte a - 192) * 64 + cont b)%N.
Definition code3 (a b c : ascii) : N := (((byte a - 224) * 64 + cont b) * 64 + cont c)%N.
Definition code4 (a b c d : ascii) : N :=
  ((((byte a - 240) * 64 + cont b) * 64 + cont c) * 64 + cont d)%N.

(** The bytes are those of one character in two, three or four bytes. *)
Definition two (a b : ascii) : bool :=
  (194 <=? byte a)%N && (byte a <? 224)%N && is_cont b.

Definition three (a b c : ascii) : bool :=
  (224 <=? byte a)%N && (byte a <? 240)%N && is_cont b && is_cont c &&
  (2048 <=? code3 a b c)%N.

Definition four (a b c d : ascii) : bool :=
  (240 <=? byte a)%N && (byte a <? 245)%N && is_cont b && is_cont c && is_cont d &&
  (65536 <=? code4 a b c d)%N && (code4 a b c d <? 1114112)%N.

(** The character at the front of a text: its code point and the number of
    bytes it takes.  (A byte that starts no character of the encoding, which
    no text holds, stands for itself.) *)
Definition head_char (s : string) : N * nat :=
  match s with
  | EmptyString => (0%N, 0)
  | String a s1 =>
      match s1 with
      | String b s2 =>
          if two a b then (code2 a b, 2)
          else match s2 with
               | String c s3 =>
                   if three a b c then (code3 a b c, 3)
                   else match s3 with
                        | String d _ =>
                            if four a b c d then (code4 a b c d, 4) else (byte a, 1)
                        | EmptyString => (byte a, 1)
                        end
               | EmptyString => (byte a, 1)
               end
      | EmptyString => (byte a, 1)
      end
  end.

(** *** The character database

    Two tables of the Unicode character database that the interpreter
    carries (Unicode 14.0 in CPython 3.11): the decimal digits, which the
    pattern [\d] matches, and the characters that are not printable, which
    [repr] escapes. *)

(** The digit zero of every run of ten decimal digits (category Nd). *)
Definition digit_zeros : list N :=
  [48; 1632; 1776; 1984; 2406; 2534; 2662; 2790; 2918; 3046;
   3174; 3302; 3430; 3558; 3664; 3792; 3872; 4160; 4240; 6112;
   6160; 6470; 6608; 6784; 6800; 6992; 7088; 7232; 7248; 42528;
   43216; 43264; 43472; 43504; 43600; 44016; 65296; 66720; 68912; 69734;
   69872; 69942; 70096; 70384; 70736; 70864; 71248; 71360; 71472; 71904;
   72016; 72784; 73040; 73120; 92768; 92864; 93008; 120782; 120792; 120802;
   120812; 120822; 123200; 123632; 125264; 130032]%N.
Definition is_decimal (cp : N) : bool :=
  existsb (λ z, (z <=? cp)%N && (cp <? z + 10)%N) digit_zeros.

(** The ranges of the characters for which [str.isprintable] is false. *)
Definition unprintable : list (N * N) :=
  [(0, 31); (127, 160); (173, 173); (888, 889); (896, 899);
   (907, 907); (909, 909); (930, 930); (1328, 1328); (1367, 1368);
   (1419, 1420); (1424, 1424); (1480, 1487); (1515, 1518); (1525, 1541);
   (1564, 1564); (1757, 1757); (1806, 1807); (1867, 1868); (1970, 1983);
   (2043, 2044); (2094, 2095); (2111, 2111); (2140, 2141); (2143, 2143);
   (2155, 2159); (2191, 2199); (2274, 2274); (2436, 2436); (2445, 2446);
   (2449, 2450); (2473, 2473); (2481, 2481); (2483, 2485); (2490, 2491);
   (2501, 2502); (2505, 2506); (2511, 2518); (2520, 2523); (2526, 2526);
   (2532, 2533); (2559, 2560); (2564, 2564); (2571, 2574); (2577, 2578);
   (2601, 2601); (2609, 2609); (2612, 2612); (2615, 2615); (2618, 2619);
   (2621, 2621); (2627, 2630); (2633, 2634); (2638, 2640); (2642, 2648);
   (2653, 2653); (2655, 2661); (2679, 2688); (2692, 2692); (2702, 2702);
   (2706, 2706); (2729, 2729); (2737, 2737); (2740, 2740); (2746, 2747);
   (2758, 2758); (2762, 2762); (2766, 2767); (2769, 2783); (2788, 2789);
   (2802, 2808); (2816, 2816); (2820, 2820); (2829, 2830); (2833, 2834);
   (2857, 2857); (2865, 2865); (2868, 2868); (2874, 2875); (2885, 2886);
   (2889, 2890); (2894, 2900); (2904, 2907); (2910, 2910); (2916, 2917);
   (2936, 2945); (2948, 2948); (2955, 2957); (2961, 2961); (2966, 2968);
   (2971, 2971); (2973, 2973); (2976, 2978); (2981, 2983); (2987, 2989);
   (3002, 3005); (3011, 3013); (3017, 3017); (3022, 3023); (3025, 3030);
   (3032, 3045); (3067, 3071); (3085, 3085); (3089, 3089); (3113, 3113);
   (3130, 3131); (3141, 3141); (3145, 3145); (3150, 3156); (3159, 3159);
   (3163, 3164); (3166, 3167); (3172, 3173); (3184, 3190); (3213, 3213);
   (3217, 3217); (3241, 3241); (3252, 3252); (3258, 3259); (3269, 3269);
   (3273, 3273); (3278, 3284); (3287, 3292); (3295, 3295); (3300, 3301);
   (3312, 3312); (3315, 3327); (3341, 3341); (3345, 3345); (3397, 3397);
   (3401, 3401); (3408, 3411); (3428, 3429); (3456, 3456); (3460, 3460);
   (3479, 3481); (3506, 3506); (3516, 3516); (3518, 3519); (3527, 3529);
   (3531, 3534); (3541, 3541); (3543, 3543); (3552, 3557); (3568, 3569);
   (3573, 3584); (3643, 3646); (3676, 3712); (3715, 3715); (3717, 3717);
   (3723, 3723); (3748, 3748); (3750, 3750); (3774, 3775); (3781, 3781);
   (3783, 3783); (3790, 3791); (3802, 3803); (3808, 3839); (3912, 3912);
   (3949, 3952); (3992, 3992); (4029, 4029); (4045, 4045); (4059, 4095);
   (4294, 4294); (4296, 4300); (4302, 4303); (4681, 4681); (4686, 4687);
   (4695, 4695); (4697, 4697); (4702, 4703); (4745, 4745); (4750, 4751);
   (4785, 4785); (4790, 4791); (4799, 4799); (4801, 4801); (4806, 4807);
   (4823, 4823); (4881, 4881); (4886, 4887); (4955, 4956); (4989, 4991);
   (5018, 5023); (5110, 5111); (5118, 5119); (5760, 5760); (5789, 5791);
   (5881, 5887); (5910, 5918); (5943, 5951); (5972, 5983); (5997, 5997);
   (6001, 6001); (6004, 6015); (6110, 6111); (6122, 6127); (6138, 6143);
   (6158, 6158); (6170, 6175); (6265, 6271); (6315, 6319); (6390, 6399);
   (6431, 6431); (6444, 6447); (6460, 6463); (6465, 6467); (6510, 6511);
   (6517, 6527); (6572, 6575); (6602, 6607); (6619, 6621); (6684, 6685);
   (6751, 6751); (6781, 6782); (6794, 6799); (6810, 6815); (6830, 6831);
   (6863, 6911); (6989, 6991); (7039, 7039); (7156, 7163); (7224, 7226);
   (7242, 7244); (7305, 7311); (7355, 7356); (7368, 7375); (7419, 7423);
   (7958, 7959); (7966, 7967); (8006, 8007); (8014, 8015); (8024, 8024);
   (8026, 8026); (8028, 8028); (8030, 8030); (8062, 8063); (8117, 8117);
   (8133, 8133); (8148, 8149); (8156, 8156); (8176, 8177); (8181, 8181);
   (8191, 8207); (8232, 8239); (8287, 8303); (8306, 8307); (8335, 8335);
   (8349, 8351); (8385, 8399); (8433, 8447); (8588, 8591); (9255, 9279);
   (9291, 9311); (11124, 11125); (11158, 11158); (11508, 11512); (11558, 11558);
   (11560, 11564); (11566, 11567); (11624, 11630); (11633, 11646); (11671, 11679);
   (11687, 11687); (11695, 11695); (11703, 11703); (11711, 11711); (11719, 11719);
   (11727, 11727); (11735, 11735); (11743, 11743); (11870, 11903); (11930, 11930);
   (12020, 12031); (12246, 12271); (12284, 12288); (12352, 12352); (12439, 12440);
   (12544, 12548); (12592, 12592); (12687, 12687); (12772, 12783); (12831, 12831);
   (42125, 42127); (42183, 42191); (42540, 42559); (42744, 42751); (42955, 42959);
   (42962, 42962); (42964, 42964); (42970, 42993); (43053, 43055); (43066, 43071);
   (43128, 43135); (43206, 43213); (43226, 43231); (43348, 43358); (43389, 43391);
   (43470, 43470); (43482, 43485); (43519, 43519); (43575, 43583); (43598, 43599);
   (43610, 43611); (43715, 43738); (43767, 43776); (43783, 43784); (43791, 43792);
   (43799, 43807); (43815, 43815); (43823, 43823); (43884, 43887); (44014, 44015);
   (44026, 44031); (55204, 55215); (55239, 55242); (55292, 63743); (64110, 64111);
   (64218, 64255); (64263, 64274); (64280, 64284); (64311, 64311); (64317, 64317);
   (64319, 64319); (64322, 64322); (64325, 64325); (64451, 64466); (64912, 64913);
   (64968, 64974); (64976, 65007); (65050, 65055); (65107, 65107); (65127, 65127);
   (65132, 65135); (65141, 65141); (65277, 65280); (65471, 65473); (65480, 65481);
   (65488, 65489); (65496, 65497); (65501, 65503); (65511, 65511); (65519, 65531);
   (65534, 65535); (65548, 65548); (65575, 65575); (65595, 65595); (65598, 65598);
   (65614, 65615); (65630, 65663); (65787, 65791); (65795, 65798); (65844, 65846);
   (65935, 65935); (65949, 65951); (65953, 65999); (66046, 66175); (66205, 66207);
   (66257, 66271); (66300, 66303); (66340, 66348); (66379, 66383); (66427, 66431);
   (66462, 66462); (66500, 66503); (66518, 66559); (66718, 66719); (66730, 66735);
   (66772, 66775); (66812, 66815); (66856, 66863); (66916, 66926); (66939, 66939);
   (66955, 66955); (66963, 66963); (66966, 66966); (66978, 66978); (66994, 66994);
   (67002, 67002); (67005, 67071); (67383, 67391); (67414, 67423); (67432, 67455);
   (67462, 67462); (67505, 67505); (67515, 67583); (67590, 67591); (67593, 67593);
   (67638, 67638); (67641, 67643); (67645, 67646); (67670, 67670); (67743, 67750);
   (67760, 67807); (67827, 67827); (67830, 67834); (67868, 67870); (67898, 67902);
   (67904, 67967); (68024, 68027); (68048, 68049); (68100, 68100); (68103, 68107);
   (68116, 68116); (68120, 68120); (68150, 68151); (68155, 68158); (68169, 68175);
   (68185, 68191); (68256, 68287); (68327, 68330); (68343, 68351); (68406, 68408);
   (68438, 68439); (68467, 68471); (68498, 68504); (68509, 68520); (68528, 68607);
   (68681, 68735); (68787, 68799); (68851, 68857); (68904, 68911); (68922, 69215);
   (69247, 69247); (69290, 69290); (69294, 69295); (69298, 69375); (69416, 69423);
   (69466, 69487); (69514, 69551); (69580, 69599); (69623, 69631); (69710, 69713);
   (69750, 69758); (69821, 69821); (69827, 69839); (69865, 69871); (69882, 69887);
   (69941, 69941); (69960, 69967); (70007, 70015); (70112, 70112); (70133, 70143);
   (70162, 70162); (70207, 70271); (70279, 70279); (70281, 70281); (70286, 70286);
   (70302, 70302); (70314, 70319); (70379, 70383); (70394, 70399); (70404, 70404);
   (70413, 70414); (70417, 70418); (70441, 70441); (70449, 70449); (70452, 70452);
   (70458, 70458); (70469, 70470); (70473, 70474); (70478, 70479); (70481, 70486);
   (70488, 70492); (70500, 70501); (70509, 70511); (70517, 70655); (70748, 70748);
   (70754, 70783); (70856, 70863); (70874, 71039); (71094, 71095); (71134, 71167);
   (71237, 71247); (71258, 71263); (71277, 71295); (71354, 71359); (71370, 71423);
   (71451, 71452); (71468, 71471); (71495, 71679); (71740, 71839); (71923, 71934);
   (71943, 71944); (71946, 71947); (71956, 71956); (71959, 71959); (71990, 71990);
   (71993, 71994); (72007, 72015); (72026, 72095); (72104, 72105); (72152, 72153);
   (72165, 72191); (72264, 72271); (72355, 72367); (72441, 72703); (72713, 72713);
   (72759, 72759); (72774, 72783); (72813, 72815); (72848, 72849); (72872, 72872);
   (72887, 72959); (72967, 72967); (72970, 72970); (73015, 73017); (73019, 73019);
   (73022, 73022); (73032, 73039); (73050, 73055); (73062, 73062); (73065, 73065);
   (73103, 73103); (73106, 73106); (73113, 73119); (73130, 73439); (73465, 73647);
   (73649, 73663); (73714, 73726); (74650, 74751); (74863, 74863); (74869, 74879);
   (75076, 77711); (77811, 77823); (78895, 82943); (83527, 92159); (92729, 92735);
   (92767, 92767); (92778, 92781); (92863, 92863); (92874, 92879); (92910, 92911);
   (92918, 92927); (92998, 93007); (93018, 93018); (93026, 93026); (93048, 93052);
   (93072, 93759); (93851, 93951); (94027, 94030); (94088, 94094); (94112, 94175);
   (94181, 94191); (94194, 94207); (100344, 100351); (101590, 101631); (101641, 110575);
   (110580, 110580); (110588, 110588); (110591, 110591); (110883, 110927); (110931, 110947);
   (110952, 110959); (111356, 113663); (113771, 113775); (113789, 113791); (113801, 113807);
   (113818, 113819); (113824, 118527); (118574, 118575); (118599, 118607); (118724, 118783);
   (119030, 119039); (119079, 119080); (119155, 119162); (119275, 119295); (119366, 119519);
   (119540, 119551); (119639, 119647); (119673, 119807); (119893, 119893); (119965, 119965);
   (119968, 119969); (119971, 119972); (119975, 119976); (119981, 119981); (119994, 119994);
   (119996, 119996); (120004, 120004); (120070, 120070); (120075, 120076); (120085, 120085);
   (120093, 120093); (120122, 120122); (120127, 120127); (120133, 120133); (120135, 120137);
   (120145, 120145); (120486, 120487); (120780, 120781); (121484, 121498); (121504, 121504);
   (121520, 122623); (122655, 122879); (122887, 122887); (122905, 122906); (122914, 122914);
   (122917, 122917); (122923, 123135); (123181, 123183); (123198, 123199); (123210, 123213);
   (123216, 123535); (123567, 123583); (123642, 123646); (123648, 124895); (124903, 124903);
   (124908, 124908); (124911, 124911); (124927, 124927); (125125, 125126); (125143, 125183);
   (125260, 125263); (125274, 125277); (125280, 126064); (126133, 126208); (126270, 126463);
   (126468, 126468); (126496, 126496); (126499, 126499); (126501, 126502); (126504, 126504);
   (126515, 126515); (126520, 126520); (126522, 126522); (126524, 126529); (126531, 126534);
   (126536, 126536); (126538, 126538); (126540, 126540); (126544, 126544); (126547, 126547);
   (126549, 126550); (126552, 126552); (126554, 126554); (126556, 126556); (126558, 126558);
   (126560, 126560); (126563, 126563); (126565, 126566); (126571, 126571); (126579, 126579);
   (126584, 126584); (126589, 126589); (126591, 126591); (126602, 126602); (126620, 126624);
   (126628, 126628); (126634, 126634); (126652, 126703); (126706, 126975); (127020, 127023);
   (127124, 127135); (127151, 127152); (127168, 127168); (127184, 127184); (127222, 127231);
   (127406, 127461); (127491, 127503); (127548, 127551); (127561, 127567); (127570, 127583);
   (127590, 127743); (128728, 128732); (128749, 128751); (128765, 128767); (128884, 128895);
   (128985, 128991); (129004, 129007); (129009, 129023); (129036, 129039); (129096, 129103);
   (129114, 129119); (129160, 129167); (129198, 129199); (129202, 129279); (129620, 129631);
   (129646, 129647); (129653, 129655); (129661, 129663); (129671, 129679); (129709, 129711);
   (129723, 129727); (129734, 129743); (129754, 129759); (129768, 129775); (129783, 129791);
   (129939, 129939); (129995, 130031); (130042, 131071); (173792, 173823); (177977, 177983);
   (178206, 178207); (183970, 183983); (191457, 194559); (195102, 196607); (201547, 917759);
   (918000, 1114111)]%N.
Definition is_printable (cp : N) : bool :=
  negb (existsb (λ r : N * N, (r.1 <=? cp)%N && (cp <=? r.2)%N) unprintable).

(** ** Python values *)

(** A number as Python compares it: an exact value (every [int], [bool] and
    finite [float] has one), an infinity, or the NaN.  [json.load] reads the
    infinities from [Infinity], [-Infinity] and from literals too large for
    a float, and NaN from [NaN]; every NaN it returns is one and the same
    object, which a set or a dict key finds again by identity. *)
Inductive num : Type :=
  | Fin (q : Qc)
  | Inf (neg : bool)
  | NaN.

Coercion Fin : Qc >-> num.

Global Instance num_eq_dec : EqDecision num.
Proof. solve_decision. Defined.

(** The values [json.load] returns.  A float carries its value (for truth,
    equality and ordering) and, when that is finite, the text [repr] prints
    for it (the program does no arithmetic on floats).  A [JDict] lists the
    items of the parsed dict in insertion order. *)
Inductive json : Type :=
  | JNull
  | JBool (b : bool)
  | JInt (z : Z)
  | JFloat (x : num) (repr : string)
  | JStr (s : string)
  | JList (items : list json)
  | JDict (items : list (string * json)).

(** The exceptions met in the integration core. *)
Inductive exn : Type :=
  | TypeError
  | AttributeError
  | IndexError
  | ReadError.

(** The outcome of an expression that may raise. *)
Inductive outcome (A : Type) : Type :=
  | Ret (a : A)
  | Raise (e : exn).
Arguments Ret {A} a.
Arguments Raise {A} e.

Global Instance exn_eq_dec : EqDecision exn.
Proof. solve_decision. Defined.

Global Instance outcome_eq_dec `{EqDecision A} : EqDecision (outcome A).
Proof. solve_decision. Defined.

Definition obind {A B} (o : outcome A) (k : A → outcome B) : outcome B :=
  match o with
  | Ret a => k a
  | Raise e => Raise e
  end.

(** [bool(x)]: Python's truth value. *)
Definition truthy (x : json) : bool :=
  match x with
  | JNull => false
  | JBool b => b
  | JInt z => negb (z =? 0)%Z
  | JFloat x _ => negb (bool_decide (x = Fin 0))
  | JStr s => negb (String.eqb s "")
  | JList l => match l with [] => false | _ => true end
  | JDict l => match l with [] => false | _ => true end
  end.

(** [a or b]: [a] when it is true, else [b]. *)
Definition py_or (a b : json) : json := if truthy a then a else b.

(** [d.get(k)] on the items of a dict: [None] when the key is absent. *)
Fixpoint dict_lookup (items : list (string * json)) (k : string) : option json :=
  match items with
  | [] => None
  | (k', v) :: rest => if String.eqb k' k then Some v else dict_lookup rest k
  end.

Definition dict_get (items : list (string * json)) (k : string) (dflt : json) : json :=
  default dflt (dict_lookup items k).

(** *** [str] and [repr] *)

Definition nl : string := String (ascii_of_nat 10) "".
Definition squote : ascii := ascii_of_nat 39.
Definition dquote : ascii := ascii_of_nat 34.
Definition bslash : ascii := ascii_of_nat 92.

Definition hex_digit (n : nat) : ascii :=
  if n <? 10 then ascii_of_nat (48 + n) else ascii_of_nat (87 + n).

(** [n] in [width] hexadecimal digits. *)
Fixpoint hex_text (width : nat) (n : N) : string :=
  match width with
  | 0 => ""
  | S w => hex_text w (n / 16)%N +:+ String (hex_digit (N.to_nat (n mod 16)%N)) ""
  end.

Fixpoint string_has (c : ascii) (s : string) : bool :=
  match s with
  | EmptyString => false
  | String c' s' => Ascii.eqb c c' || string_has c s'
  end.

Fixpoint string_concat_map (f : ascii → string) (s : string) : string :=
  match s with
  | EmptyString => ""
  | String c s' => f c +:+ string_concat_map f s'
  end.

Fixpoint join (sep : string) (l : list string) : string :=
  match l with
  | [] => ""
  | [x] => x
  | x :: rest => x +:+ sep +:+ join sep rest
  end.

(** One character of [repr] of a [str] quoted with [q]: the character [cp],
    whose bytes are [bytes], is kept when it is printable and written as an
    escape when it is not. *)
Definition repr_char (q : ascii) (cp : N) (bytes : string) : string :=
  if (cp =? 92)%N || (cp =? byte q)%N then String bslash bytes
  else if (cp =? 9)%N then String bslash "t"
  else if (cp =? 10)%N then String bslash "n"
  else if (cp =? 13)%N then String bslash "r"
  else if is_printable cp then bytes
  else if (cp <? 256)%N then String bslash (String "x"%char (hex_text 2 cp))
  else if (cp <? 65536)%N then String bslash (String "u"%char (hex_text 4 cp))
  else String bslash (String "U"%char (hex_text 8 cp)).

(** The characters of a text, each through [repr_char]. *)
Fixpoint repr_text (q : ascii) (s : string) : string :=
  match s with
  | EmptyString => ""
  | String a s1 =>
      match head_char s with
      | (cp, 2) =>
          match s1 with
          | String b s2 => repr_char q cp (String a (String b "")) +:+ repr_text q s2
          | _ => ""
          end
      | (cp, 3) =>
          match s1 with
          | String b (String c s3) =>
              repr_char q cp (String a (String b (String c ""))) +:+ repr_text q s3
          | _ => ""
          end
      | (cp, 4) =>
          match s1 with
          | String b (String c (String d s4)) =>
              repr_char q cp (String a (String b (String c (String d "")))) +:+
              repr_text q s4
          | _ => ""
          end
      | (cp, _) => repr_char q cp (String a "") +:+ repr_text q s1
      end
  end.

Definition str_repr (s : string) : string :=
  let q := if string_has squote s && negb (string_has dquote s) then dquote else squote in
  String q (repr_text q s) +:+ String q "".

(** [repr] of a float: the text it carries, or the name of what is not
    finite. *)
Definition float_repr (x : num) (r : string) : string :=
  match x with
  | Fin _ => r
  | Inf neg => if neg then "-inf" else "inf"
  | NaN => "nan"
  end.

Fixpoint py_repr (x : json) : string :=
  match x with
  | JNull => "None"
  | JBool b => if b then "True" else "False"
  | JInt z => pretty z
  | JFloat x r => float_repr x r
  | JStr s => str_repr s
  | JList l => "[" +:+ join ", " (map py_repr l) +:+ "]"
  | JDict l =>
      "{" +:+ join ", " (map (λ kv, str_repr (fst kv) +:+ ": " +:+ py_repr (snd kv)) l) +:+ "}"
  end.

(** [str(x)]. *)
Definition py_str (x : json) : string :=
  match x with
  | JStr s => s
  | _ => py_repr x
  end.

(** ** Value extractor *)

(** [get_value], lines 35-42.  The dict branch hands back the field as it
    is stored; the two last branches both return [str(x)]. *)
Definition get_value (x : json) : json :=
  match x with
  | JNull => JStr ""
  | JDict items => dict_get items "value" (JStr "")
  | JStr _ | JInt _ | JFloat _ _ | JBool _ => JStr (py_str x)
  | _ => JStr (py_str x)
  end.

(** *** The two patterns

    [_QID_RE] is [/entity/(Q\d+)$] and [_PID_RE] is [/prop/direct/(P\d+)$].
    [search] looks for the leftmost place where the literal text, the
    letter and a run of digits stand, followed by the end of the text or by
    a last newline (what [$] accepts).  In a pattern on [str], [\d] takes
    the decimal digits of every script. *)

(** The number of bytes of the decimal digit at the front of [s], and zero
    when no digit stands there. *)
Definition digit_len (s : string) : nat :=
  let '(cp, k) := head_char s in if is_decimal cp then k else 0.

Fixpoint strip_prefix (p s : string) : option string :=
  match p, s with
  | EmptyString, _ => Some s
  | String a p', String b s' => if Ascii.eqb a b then strip_prefix p' s' else None
  | String _ _, EmptyString => None
  end.

(** The longest run of digits at the front of [s], and what follows. *)
Fixpoint span_digits (s : string) : string * string :=
  match s with
  | EmptyString => ("", "")
  | String a s1 =>
      match digit_len s with
      | 1 => let '(ds, tl) := span_digits s1 in (String a ds, tl)
      | 2 =>
          match s1 with
          | String b s2 => let '(ds, tl) := span_digits s2 in (String a (String b ds), tl)
          | _ => ("", s)
          end
      | 3 =>
          match s1 with
          | String b (String c s3) =>
              let '(ds, tl) := span_digits s3 in (String a (String b (String c ds)), tl)
          | _ => ("", s)
          end
      | 4 =>
          match s1 with
          | String b (String c (String d s4)) =>
              let '(ds, tl) := span_digits s4 in
              (String a (String b (String c (String d ds))), tl)
          | _ => ("", s)
          end
      | _ => ("", s)
      end
  end.

Definition at_end (s : string) : bool := String.eqb s "" || String.eqb s nl.

(** The pattern [lit(letter \d+)$] matched at the front of [s]: the group. *)
Definition match_here (lit : string) (letter : ascii) (s : string) : option string :=
  match strip_prefix lit s with
  | Some (String c rest) =>
      if Ascii.eqb c letter then
        let '(ds, tl) := span_digits rest in
        if negb (String.eqb ds "") && at_end tl then Some (String letter ds) else None
      else None
  | _ => None
  end.

Fixpoint re_search (lit : string) (letter : ascii) (s : string) : option string :=
  match match_here lit letter s with
  | Some g => Some g
  | None =>
      match s with
      | EmptyString => None
      | String _ s' => re_search lit letter s'
      end
  end.

(** [pattern.search(v)] raises [TypeError] when [v] is not a [str]. *)
Definition search_value (lit : string) (letter : ascii) (v : json) : outcome (option string) :=
  match v with
  | JStr s => Ret (re_search lit letter s)
  | _ => Raise TypeError
  end.

(** [extract_qid], lines 44-46, and [extract_pid], lines 48-50. *)
Definition extract_qid (x : json) : outcome (option string) :=
  search_value "/entity/" "Q"%char (get_value x).

Definition extract_pid (x : json) : outcome (option string) :=
  search_value "/prop/direct/" "P"%char (get_value x).

(** ** File loader *)

(** A file as [load_json_any] meets it: the document [json.load] parses, or
    [None] when opening or parsing fails. *)
Definition file : Type := option json.

(** [x.get(k)] for any value [x]: only a dict has the method. *)
Definition py_get (x : json) (k : string) (dflt : json) : outcome json :=
  match x with
  | JDict items => Ret (dict_get items k dflt)
  | _ => Raise AttributeError
  end.

(** [load_json_any], lines 52-62, on the parsed document. *)
Definition load_json_doc (raw : json) : outcome (list json) :=
  match raw with
  | JDict items =>
      obind (py_get (dict_get items "results" (JDict [])) "bindings" JNull) (λ b,
        match b with
        | JList rows => Ret rows
        | _ => Ret [raw]
        end)
  | JList rows => Ret rows
  | _ => Ret [raw]
  end.

Definition load_json_any (f : file) : outcome (list json) :=
  match f with
  | None => Raise ReadError
  | Some raw => load_json_doc raw
  end.

(** ** Graph builder *)

(** What a Python set or dict key is compared by: [None], a string, or a
    number by its value ([True == 1 == 1.0] is one key; the NaN, which is
    equal to nothing, is found again as the object it is).  Lists and dicts
    are unhashable. *)
Inductive hval : Type :=
  | HNone
  | HStr (s : string)
  | HNum (x : num).

Global Instance hval_eq_dec : EqDecision hval.
Proof. solve_decision. Defined.

Definition hval_to_sum (h : hval) : unit + (string + (Qc + (bool + unit))) :=
  match h with
  | HNone => inl ()
  | HStr s => inr (inl s)
  | HNum (Fin q) => inr (inr (inl q))
  | HNum (Inf neg) => inr (inr (inr (inl neg)))
  | HNum NaN => inr (inr (inr (inr ())))
  end.

Definition hval_of_sum (x : unit + (string + (Qc + (bool + unit)))) : hval :=
  match x with
  | inl _ => HNone
  | inr (inl s) => HStr s
  | inr (inr (inl q)) => HNum (Fin q)
  | inr (inr (inr (inl neg))) => HNum (Inf neg)
  | inr (inr (inr (inr _))) => HNum NaN
  end.

Global Instance hval_countable : Countable hval.
Proof.
  apply (inj_countable' hval_to_sum hval_of_sum).
  intros [| |[]]; reflexivity.
Defined.

(** [hash(x)], as far as it decides set membership. *)
Definition hash_key (x : json) : outcome hval :=
  match x with
  | JNull => Ret HNone
  | JBool b => Ret (HNum (Qc_of_Z (if b then 1 else 0)))
  | JInt z => Ret (HNum (Qc_of_Z z))
  | JFloat x _ => Ret (HNum x)
  | JStr s => Ret (HStr s)
  | JList _ | JDict _ => Raise TypeError
  end.

(** A node while the graph is built: [{id: qid, labels: set()}]. *)
Record node : Type := Node {
  node_id : string;
  node_labels : gset hval
}.

(** An edge as it is appended: the property label is stored as it came. *)
Record edge : Type := Edge {
  source : string;
  target : string;
  property_id : option string;
  property_label : json
}.

(** The dedup key [(src, dst, pid or "", prop_label or "")]. *)
Definition edge_key : Type := string * string * string * hval.

(** [KGBuilder.__init__], lines 76-80. *)
Record KGBuilder : Type := Builder {
  nodes : gmap string node;
  edges : list edge;
  edge_seen : gset edge_key;
  prop_counts : gmap (string * hval) nat
}.

Definition KGBuilder_init : KGBuilder :=
  {| nodes := ∅; edges := []; edge_seen := ∅; prop_counts := ∅ |}.

Definition set_nodes (s : KGBuilder) (ns : gmap string node) : KGBuilder :=
  {| nodes := ns; edges := edges s; edge_seen := edge_seen s;
     prop_counts := prop_counts s |}.

(** A method of the builder: it may change the builder and may raise; what
    was changed before a [raise] stays changed. *)
Definition M (A : Type) : Type := KGBuilder → KGBuilder * outcome A.

Definition ret {A} (a : A) : M A := λ s, (s, Ret a).

Definition bind {A B} (m : M A) (k : A → M B) : M B :=
  λ s, match m s with
       | (s', Ret a) => k a s'
       | (s', Raise e) => (s', Raise e)
       end.

Definition lift {A} (o : outcome A) : M A := λ s, (s, o).

Notation "'let!' x ':=' m1 'in' m2" := (bind m1 (λ x, m2))
  (at level 10, x name, m1 at level 100, m2 at level 200).
Notation "'run!' m1 'in' m2" := (bind m1 (λ _, m2))
  (at level 10, m1 at level 100, m2 at level 200).

(** The builder a call leaves behind. *)
Definition run {A} (m : M A) (s : KGBuilder) : KGBuilder := fst (m s).

(** [pid or ""] for an [Optional[str]]. *)
Definition opt_truthy (o : option string) : bool :=
  match o with
  | Some s => negb (String.eqb s "")
  | None => false
  end.

Definition or_empty (o : option string) : string :=
  if opt_truthy o then default "" o else "".

(** [ensure_node], lines 82-89.  [n] is the dict stored under [qid], so
    adding to its label set changes the stored node. *)
Definition ensure_node (qid : string) (label : json) : M node :=
  λ s,
    let n := default (Node qid ∅) (nodes s !! qid) in
    let s1 := match nodes s !! qid with
              | None => set_nodes s (<[qid := n]> (nodes s))
              | Some _ => s
              end in
    if truthy label then
      match hash_key label with
      | Raise e => (s1, Raise e)
      | Ret k =>
          let n' := Node (node_id n) ({[k]} ∪ node_labels n) in
          (set_nodes s1 (<[qid := n']> (nodes s1)), Ret n')
      end
    else (s1, Ret n).

(** The key of [add_edge], line 92; looking it up in [edge_seen] hashes it. *)
Definition make_key (src dst : string) (pid : option string) (prop_label : json)
    : outcome edge_key :=
  obind (hash_key (py_or prop_label (JStr ""))) (λ lk,
    Ret (src, dst, or_empty pid, lk)).

(** [add_edge], lines 91-99. *)
Definition add_edge (src dst : string) (pid : option string) (prop_label : json)
    : M unit :=
  λ s,
    match make_key src dst pid prop_label with
    | Raise e => (s, Raise e)
    | Ret key =>
        if bool_decide (key ∈ edge_seen s) then (s, Ret ())
        else
          let pc := (key.1.2, key.2) in
          ({| nodes := nodes s;
              edges := edges s ++ [Edge src dst pid prop_label];
              edge_seen := {[key]} ∪ edge_seen s;
              prop_counts :=
                <[pc := S (default 0 (prop_counts s !! pc))]> (prop_counts s) |},
           Ret ())
    end.

(** *** Row normalizer *)

(** [row.get(k)]. *)
Definition row_get (row : json) (k : string) : outcome json := py_get row k JNull.

(** [a or b] where both may raise and [b] is only evaluated when [a] is
    false. *)
Definition or_id (a b : outcome (option string)) : outcome (option string) :=
  obind a (λ x, if opt_truthy x then Ret x else b).

Definition or_val (a b : outcome json) : outcome json :=
  obind a (λ x, if truthy x then Ret x else b).

Definition qid_at (row : json) (k : string) : outcome (option string) :=
  obind (row_get row k) extract_qid.

Definition pid_at (row : json) (k : string) : outcome (option string) :=
  obind (row_get row k) extract_pid.

Definition value_at (row : json) (k : string) : outcome json :=
  obind (row_get row k) (λ c, Ret (get_value c)).

Definition opt_json (o : option string) : json :=
  match o with
  | Some s => JStr s
  | None => JNull
  end.

(** Lines 103-107. *)
Definition row_subj (row : json) : outcome (option string) :=
  or_id (qid_at row "item") (or_id (qid_at row "item1") (qid_at row "subject")).

(** Lines 108-112. *)
Definition row_subj_label (row : json) : outcome json :=
  or_val (value_at row "itemLabel")
    (or_val (value_at row "item1Label") (value_at row "subjectLabel")).

(** Line 118. *)
Definition row_pid (row : json) : outcome (option string) :=
  or_id (pid_at row "prop") (pid_at row "p").

(** Lines 119-123. *)
Definition row_prop_label (row : json) (pid : option string) : outcome json :=
  or_val (value_at row "propLabel")
    (or_val (value_at row "pl_") (Ret (opt_json pid))).

(** Lines 126-130. *)
Definition row_obj (row : json) : outcome (option string) :=
  or_id (qid_at row "value") (or_id (qid_at row "item2") (qid_at row "o")).

(** Lines 131-135. *)
Definition row_obj_label (row : json) : outcome json :=
  or_val (value_at row "valueLabel")
    (or_val (value_at row "item2Label") (value_at row "ol_")).

(** [process_row], lines 101-139. *)
Definition process_row (row : json) : M unit :=
  let! subj := lift (row_subj row) in
  let! subj_label := lift (row_subj_label row) in
  if negb (opt_truthy subj) then ret ()
  else
    let subj := default "" subj in
    run! ensure_node subj subj_label in
    let! pid := lift (row_pid row) in
    let! prop_label := lift (row_prop_label row pid) in
    let! obj := lift (row_obj row) in
    let! obj_label := lift (row_obj_label row) in
    if opt_truthy obj then
      let obj := default "" obj in
      run! ensure_node obj obj_label in
      add_edge subj obj pid prop_label
    else ret ().

(** *** [build], lines 141-163 *)

(** The inner loop: a row that raises is reported and the loop goes on with
    the builder as the row left it. *)
Fixpoint ingest (rows : list json) (s : KGBuilder) : KGBuilder :=
  match rows with
  | [] => s
  | row :: rest => ingest rest (run (process_row row) s)
  end.

(** The rows a file contributes: none when [load_json_any] raises. *)
Definition file_rows (f : file) : list json :=
  match load_json_any f with
  | Ret rows => rows
  | Raise _ => []
  end.

(** The outer loop. *)
Fixpoint ingest_files (files : list file) (s : KGBuilder) : KGBuilder :=
  match files with
  | [] => s
  | f :: rest => ingest_files rest (ingest (file_rows f) s)
  end.

(** *** End-of-build normalization, lines 154-163 *)

(** [x < y] between two numbers: the NaN is less than nothing and nothing
    is less than it. *)
Definition num_lt (x y : num) : bool :=
  match x, y with
  | Fin p, Fin q => bool_decide (p < q)%Qc
  | Fin _, Inf neg => negb neg
  | Inf neg, Fin _ => neg
  | Inf a, Inf b => a && negb b
  | _, _ => false
  end.

(** [a < b] between two keys: strings by code point (which is the order of
    their UTF-8 bytes), numbers by value, and no order between the kinds
    nor on [None]. *)
Definition py_lt (a b : hval) : outcome bool :=
  match a, b with
  | HStr s, HStr t => Ret (String.ltb s t)
  | HNum x, HNum y => Ret (num_lt x y)
  | _, _ => Raise TypeError
  end.

(** A stable insertion sort that compares with [<] only: each item in turn
    goes into the sorted items before it, in front of the first one it is
    less than.  Python's sort makes other comparisons, but it raises on the
    same lists (those that hold two items of which one is no string and the
    other no number), and where [<] orders the items it returns the same
    list, the one list that is sorted. *)
Fixpoint insert_sorted (x : hval) (l : list hval) : outcome (list hval) :=
  match l with
  | [] => Ret [x]
  | y :: l' =>
      obind (py_lt x y) (λ b,
        if b then Ret (x :: y :: l')
        else obind (insert_sorted x l') (λ r, Ret (y :: r)))
  end.

Fixpoint sort_into (done : list hval) (l : list hval) : outcome (list hval) :=
  match l with
  | [] => Ret done
  | x :: l' => obind (insert_sorted x done) (λ done', sort_into done' l')
  end.

(** Where [<] does not order the items, that is on numbers with the NaN
    among them, the list [sorted] returns depends on the order in which the
    set is walked (the slots of its hash table, which the address of the NaN
    object and the history of the set decide) and on the steps of the sort.
    The program does not determine it: a run of [build] comes with the
    arrangements made in it, one for each node, of which all that is known
    is that each holds the items it was given. *)
Record sort_choices : Type := SortChoices {
  arrange : string → list hval → list hval;
  arrange_perm q l : arrange q l ≡ₚ l
}.

Definition is_nan (h : hval) : bool :=
  match h with
  | HNum NaN => true
  | _ => false
  end.

(** The NaN stands beside another item. *)
Definition unordered (l : list hval) : bool := existsb is_nan l && (1 <? length l).

(** [sorted(l)], with the arrangement [arr] of the run for this call. *)
Definition py_sorted (arr : list hval → list hval) (l : list hval)
    : outcome (list hval) :=
  obind (sort_into [] l) (λ r, Ret (if unordered l then arr l else r)).

(** A node after normalization: [{id, label, labels}]. *)
Record node_norm : Type := NodeNorm {
  norm_id : string;
  norm_label : hval;
  norm_labels : list hval
}.

(** [l[0]]. *)
Definition first_item (l : list hval) : outcome hval :=
  match l with
  | x :: _ => Ret x
  | [] => Raise IndexError
  end.

(** The body of the loop, lines 157-162. *)
Definition normalize_node (c : sort_choices) (q : string) (n : node)
    : outcome node_norm :=
  let labels := elements (node_labels n) in
  obind (if bool_decide (node_labels n ≠ ∅)
         then obind (py_sorted (arrange c q) labels) first_item
         else Ret (HStr "")) (λ label,
  obind (py_sorted (arrange c q) labels) (λ sorted_labels,
    Ret (NodeNorm q label sorted_labels))).

Definition is_ret {A} (o : outcome A) : bool :=
  match o with Ret _ => true | Raise _ => false end.

Definition ret_opt {A} (o : outcome A) : option A :=
  match o with Ret a => Some a | Raise _ => None end.

(** The loop over [self.nodes.items()]: the only exception its body can
    raise is the [TypeError] of [sorted]. *)
Definition normalize (c : sort_choices) (ns : gmap string node)
    : outcome (gmap string node_norm) :=
  if bool_decide (map_Forall (λ q n, is_ret (normalize_node c q n) = true) ns)
  then Ret (map_imap (λ q n, ret_opt (normalize_node c q n)) ns)
  else Raise TypeError.

(** The builder once [build] has returned: what the exporters read. *)
Record Graph : Type := MkGraph {
  graph_nodes : gmap string node_norm;
  graph_edges : list edge
}.

(** [build]: the two loops, then the normalization, whose exception nothing
    catches. *)
Definition build (c : sort_choices) (files : list file) (s : KGBuilder)
    : outcome Graph :=
  let s' := ingest_files files s in
  obind (normalize c (nodes s')) (λ ns, Ret (MkGraph ns (edges s'))).

(** ** Sanitizer *)

Definition json_escape_char (c : ascii) : string :=
  let n := nat_of_ascii c in
  if Ascii.eqb c dquote || Ascii.eqb c bslash then String bslash (String c "")
  else if n =? 10 then String bslash "n"
  else if n =? 13 then String bslash "r"
  else if n =? 9 then String bslash "t"
  else if n =? 8 then String bslash "b"
  else if n =? 12 then String bslash "f"
  else if n <? 32
       then String bslash ("u00" +:+ String (hex_digit (n / 16)) (String (hex_digit (n mod 16)) ""))
  else String c "".

(** A string literal of [json.dumps(..., ensure_ascii=False)]. *)
Definition json_string (s : string) : string :=
  String dquote (string_concat_map json_escape_char s) +:+ String dquote "".

(** A float in JSON text: [float.__repr__] of a finite one, and the three
    names that [allow_nan] lets through. *)
Definition float_json (x : num) (r : string) : string :=
  match x with
  | Fin _ => r
  | Inf neg => if neg then "-Infinity" else "Infinity"
  | NaN => "NaN"
  end.

(** [json.dumps(v, ensure_ascii=False, separators=(",", ":"))]. *)
Fixpoint json_dumps (x : json) : string :=
  match x with
  | JNull => "null"
  | JBool b => if b then "true" else "false"
  | JInt z => pretty z
  | JFloat x r => float_json x r
  | JStr s => json_string s
  | JList l => "[" +:+ join "," (map json_dumps l) +:+ "]"
  | JDict l =>
      "{" +:+ join "," (map (λ kv, json_string (fst kv) +:+ ":" +:+ json_dumps (snd kv)) l) +:+ "}"
  end.

(** The values [sanitize_scalar] can be handed: a value of the JSON types,
    or any other object (the label set of a node that was not normalized,
    say), which [json.dumps] refuses with a [TypeError] and which stands
    here by the text [str] gives for it. *)
Inductive pyval : Type :=
  | PJson (j : json)
  | PObject (text : string).

Definition dumps (v : pyval) : outcome string :=
  match v with
  | PJson j => Ret (json_dumps j)
  | PObject _ => Raise TypeError
  end.

Definition str_of (v : pyval) : string :=
  match v with
  | PJson j => py_str j
  | PObject text => text
  end.

(** [sanitize_scalar], lines 64-72. *)
Definition sanitize_scalar (v : pyval) : pyval :=
  match v with
  | PJson JNull => PJson (JStr "")
  | PJson (JStr _ | JInt _ | JFloat _ _ | JBool _) => v
  | _ =>
      match dumps v with
      | Ret text => PJson (JStr text)
      | Raise _ => PJson (JStr (str_of v))
      end
  end.

(** ** The graph of [to_networkx] and the degrees of [export_all] *)

(** The shape of a [networkx.MultiDiGraph]: its nodes, and the two ends of
    its edges in the order they were added, parallel edges kept.  The
    attributes, which [sanitize_scalar] flattens on the way in, play no part
    in the nodes, the edges or the degrees, and are left out. *)
Record MultiDiGraph : Type := MkMultiDiGraph {
  G_nodes : gset string;
  G_edges : list (string * string)
}.

(** [nx.MultiDiGraph()]. *)
Definition G_empty : MultiDiGraph := MkMultiDiGraph ∅ [].

(** [G.add_node(n, ...)]. *)
Definition add_node (n : string) (G : MultiDiGraph) : MultiDiGraph :=
  MkMultiDiGraph ({[n]} ∪ G_nodes G) (G_edges G).

(** [G.add_edge(u, v, ...)]: the two ends become nodes when they are not,
    and one more edge is kept. *)
Definition nx_add_edge (u v : string) (G : MultiDiGraph) : MultiDiGraph :=
  MkMultiDiGraph ({[u; v]} ∪ G_nodes G) (G_edges G ++ [(u, v)]).

(** [to_networkx], lines 165-171, on the builder [build] leaves. *)
Definition to_networkx (g : Graph) : MultiDiGraph :=
  let G := foldl (λ G n, add_node (norm_id n) G) G_empty
                 (map snd (map_to_list (graph_nodes g))) in
  foldl (λ G e, nx_add_edge (source e) (target e) G) G (graph_edges g).

(** [G.degree(n)]: the edges out of [n] and the edges into it, a loop
    counted twice. *)
Definition degree (G : MultiDiGraph) (n : string) : nat :=
  length (filter (λ e, e.1 = n) (G_edges G)) +
  length (filter (λ e, e.2 = n) (G_edges G)).

(** [deg.get(n, 0)] for [deg = {n: G.degree(n) for n in G.nodes()}],
    line 190. *)
Definition deg_get (G : MultiDiGraph) (n : string) : nat :=
  if decide (n ∈ G_nodes G) then degree G n else 0.

(** The column [degree] of the node table, lines 191-193, before the rows
    are sorted. *)
Definition degree_column (g : Graph) : list nat :=
  map (λ n, deg_get (to_networkx g) (norm_id n))
      (map snd (map_to_list (graph_nodes g))).

(** * Notions used to state the properties *)

(** ** What a call does to the builder *)

(** The label a call of [ensure_node] records: none for a false label and
    none for one that cannot be hashed (the call then raises). *)
Definition label_key (label : json) : option hval :=
  if truthy label then ret_opt (hash_key label) else None.

Definition ensure_raises (label : json) : bool :=
  truthy label && negb (is_ret (hash_key label)).

(** The two changes a row can make: a node with one more label, an edge
    unless its key was seen. *)
Definition add_label (q : string) (k : option hval) (s : KGBuilder) : KGBuilder :=
  let n := default (Node q ∅) (nodes s !! q) in
  set_nodes s (<[q := Node (node_id n) (from_option singleton ∅ k ∪ node_labels n)]> (nodes s)).

Definition put_edge (e : edge) (key : edge_key) (s : KGBuilder) : KGBuilder :=
  if bool_decide (key ∈ edge_seen s) then s
  else
    let pc := (key.1.2, key.2) in
    {| nodes := nodes s;
       edges := edges s ++ [e];
       edge_seen := {[key]} ∪ edge_seen s;
       prop_counts := <[pc := S (default 0 (prop_counts s !! pc))]> (prop_counts s) |}.

Inductive action : Type :=
  | ANode (q : string) (k : option hval)
  | AEdge (e : edge) (key : edge_key).

Definition apply (a : action) (s : KGBuilder) : KGBuilder :=
  match a with
  | ANode q k => add_label q k s
  | AEdge e key => put_edge e key s
  end.

Definition apply_all (l : list action) (s : KGBuilder) : KGBuilder :=
  foldl (λ s a, apply a s) s l.

Definition after {A} (o : outcome A) (k : A → list action) : list action :=
  match o with
  | Ret a => k a
  | Raise _ => []
  end.

(** The changes a row makes, read off [process_row] statement by statement. *)
Definition row_actions (row : json) : list action :=
  after (row_subj row) (λ subj,
  after (row_subj_label row) (λ subj_label,
  if negb (opt_truthy subj) then []
  else
    let subj := default "" subj in
    ANode subj (label_key subj_label) ::
    (if ensure_raises subj_label then []
     else
       after (row_pid row) (λ pid,
       after (row_prop_label row pid) (λ prop_label,
       after (row_obj row) (λ obj,
       after (row_obj_label row) (λ obj_label,
       if negb (opt_truthy obj) then []
       else
         let obj := default "" obj in
         ANode obj (label_key obj_label) ::
         (if ensure_raises obj_label then []
          else
            after (make_key subj obj pid prop_label) (λ key,
              [AEdge (Edge subj obj pid prop_label) key]))))))))).

(** The changes of one row come in one of four shapes: nothing, the subject
    node, both nodes, or both nodes and then the edge between them. *)
Inductive row_shape : list action → Prop :=
  | shape_skip : row_shape []
  | shape_subj q k : row_shape [ANode q k]
  | shape_obj q k q' k' : row_shape [ANode q k; ANode q' k']
  | shape_edge q k q' k' pid pl key :
      make_key q q' pid pl = Ret key →
      row_shape [ANode q k; ANode q' k'; AEdge (Edge q q' pid pl) key].

(** ** Invariants of the builder *)

(** The key under which a stored edge was added. *)
Definition stored_key (e : edge) : outcome edge_key :=
  make_key (source e) (target e) (property_id e) (property_label e).

Definition key_pair (k : edge_key) : string * hval := (k.1.2, k.2).

Definition count_pair (pc : string * hval) (ks : list edge_key) : nat :=
  length (filter (λ k, key_pair k = pc) ks).

(** [ks] lists the keys of the stored edges, which are all different, are
    what [edge_seen] holds, and are what [prop_counts] counts. *)
Record dedup_consistent (s : KGBuilder) (ks : list edge_key) : Prop := {
  dc_keys : Forall2 (λ e k, stored_key e = Ret k) (edges s) ks;
  dc_nodup : NoDup ks;
  dc_seen : edge_seen s = list_to_set ks;
  dc_counts : ∀ pc, default 0 (prop_counts s !! pc) = count_pair pc ks
}.

Definition consistent (s : KGBuilder) : Prop := ∃ ks, dedup_consistent s ks.

(** Every stored node sits under its own id. *)
Definition ids_ok (s : KGBuilder) : Prop :=
  ∀ q n, nodes s !! q = Some n → node_id n = q.

(** Both ends of every stored edge are nodes. *)
Definition endpoints_ok (s : KGBuilder) : Prop :=
  ∀ e, e ∈ edges s → source e ∈ dom (nodes s) ∧ target e ∈ dom (nodes s).

(** ** Order of ingestion *)

(** What of the builder does not depend on the order of the rows: the node
    map, the seen keys and the counters (the edge list keeps the order in
    which the keys were first seen). *)
Definition same_summary (s s' : KGBuilder) : Prop :=
  nodes s = nodes s' ∧ edge_seen s = edge_seen s' ∧ prop_counts s = prop_counts s'.

(** The builder already holds what [a] would add. *)
Definition absorbed (a : action) (s : KGBuilder) : Prop :=
  match a with
  | ANode q k =>
      ∃ n, nodes s !! q = Some n ∧ ∀ x, k = Some x → x ∈ node_labels n
  | AEdge _ key => key ∈ edge_seen s
  end.

Definition all_absorbed (l : list action) (s : KGBuilder) : Prop :=
  Forall (λ a, absorbed a s) l.

(** ** Sample data: the rows of the round-trip scenario *)

Definition uri (s : string) : json := JDict [("type", JStr "uri"); ("value", JStr s)].

Definition literal (s : string) : json :=
  JDict [("type", JStr "literal"); ("value", JStr s)].

Definition earth_row : json :=
  JDict [("item", uri "http://www.wikidata.org/entity/Q1");
         ("itemLabel", literal "Earth");
         ("prop", uri "http://www.wikidata.org/prop/direct/P31");
         ("propLabel", literal "instance of");
         ("value", uri "http://www.wikidata.org/entity/Q2");
         ("valueLabel", literal "Planet")].

Definition earth_edge : edge :=
  Edge "Q1" "Q2" (Some "P31") (JStr "instance of").

Definition earth_key : edge_key := ("Q1", "Q2", "P31", HStr "instance of").

(** A row whose object is a literal, so that only its subject is kept. *)
Definition mass_row : json :=
  JDict [("item", uri "http://www.wikidata.org/entity/Q1");
         ("itemLabel", literal "Tierra");
         ("prop", uri "http://www.wikidata.org/prop/direct/P2067");
         ("value", literal "5.97e24")].

(** A row with a property id and no property label. *)
Definition moon_row : json :=
  JDict [("item1", uri "http://www.wikidata.org/entity/Q405");
         ("p", uri "http://www.wikidata.org/prop/direct/P397");
         ("item2", uri "http://www.wikidata.org/entity/Q1")].

(** A row whose subject label is a wrapped integer. *)
Definition five_row : json :=
  JDict [("item", uri "http://www.wikidata.org/entity/Q1");
         ("itemLabel", JDict [("value", JInt 5)])].

Definition file_a : file := Some (JDict [("results", JDict [("bindings", JList [earth_row])])]).

Definition file_b : file := Some (JList [earth_row; mass_row]).

Definition file_c : file := Some (JList [moon_row; earth_row]).

(** Two runs: one in which [sorted] leaves the items it cannot order as
    the model lists them, and one in which it hands them back the other way
    round. *)
Definition as_listed : sort_choices :=
  {| arrange := λ _ l, l; arrange_perm := λ _ l, reflexivity l |}.





(** ** Reachable builders and reordered files *)

(** The builders that calls of the two upsert methods lead to. *)
Inductive call_reachable : KGBuilder → Prop :=
  | call_init : call_reachable KGBuilder_init
  | call_ensure_node q label s :
      call_reachable s → call_reachable (run (ensure_node q label) s)
  | call_add_edge src dst pid prop_label s :
      call_reachable s → call_reachable (run (add_edge src dst pid prop_label) s).

(** The builders that processing rows leads to. *)
Inductive row_reachable : KGBuilder → Prop :=
  | row_init : row_reachable KGBuilder_init
  | row_step row s : row_reachable s → row_reachable (run (process_row row) s).


(** ** Labels and cells *)

(** [a < b] holds. *)

Definition hval_lt (a b : hval) : Prop := py_lt a b = Ret true.

(** The key of a string. *)
Definition is_hstr (h : hval) : Prop := ∃ s, h = HStr s.

(** [<] orders the labels: the NaN, if it is there, is there alone. *)
Definition ordered_labels (X : gset hval) : Prop :=
  HNum NaN ∈ X → X = {[HNum NaN]}.


(** Every cell of the row holds text: the row is a dict, and what
    [get_value] finds under any column is a string. *)
Definition text_cells (row : json) : Prop :=
  ∀ k v, value_at row k = Ret v → ∃ t, v = JStr t.

(** ** Blanks in a text *)

(** Blank characters: tab, newline, carriage return and space. *)
Definition is_ws (c : ascii) : bool :=
  let n := nat_of_ascii c in (n =? 9) || (n =? 10) || (n =? 13) || (n =? 32).

Fixpoint no_ws (s : string) : bool :=
  match s with
  | EmptyString => true
  | String c s' => negb (is_ws c) && no_ws s'
  end.

Fixpoint no_space (s : string) : bool :=
  match s with
  | EmptyString => true
  | String c s' => negb (nat_of_ascii c =? 32) && no_space s'
  end.

(** No string of the value, no key and no float text holds a space (a float
    text holds no blank at all). *)
Fixpoint spaceless (x : json) : bool :=
  match x with
  | JNull | JBool _ | JInt _ => true
  | JFloat _ r => no_ws r
  | JStr s => no_space s
  | JList l => forallb spaceless l
  | JDict l => forallb (λ kv, no_space (fst kv) && spaceless (snd kv)) l
  end.

(** ** Ids, outcomes and growth *)

(** An ASCII digit. *)
Definition is_digit (c : ascii) : bool :=
  let n := nat_of_ascii c in (48 <=? n) && (n <=? 57).

(** [s] is made of ASCII digits. *)
Fixpoint all_digits (s : string) : bool :=
  match s with
  | EmptyString => true
  | String c s' => is_digit c && all_digits s'
  end.

(** [s] is made of decimal digits, of any script. *)
Fixpoint decimal_text (s : string) : bool :=
  match s with
  | EmptyString => true
  | String a s1 =>
      match digit_len s with
      | 1 => decimal_text s1
      | 2 => match s1 with String _ s2 => decimal_text s2 | _ => false end
      | 3 => match s1 with String _ (String _ s3) => decimal_text s3 | _ => false end
      | 4 =>
          match s1 with
          | String _ (String _ (String _ s4)) => decimal_text s4
          | _ => false
          end
      | _ => false
      end
  end.

(** [d] is the bytes of one decimal digit. *)
Definition digit_chunk (d : string) : bool :=
  match d with
  | String a "" => is_digit a
  | String a (String b "") => two a b && is_decimal (code2 a b)
  | String a (String b (String c "")) => three a b c && is_decimal (code3 a b c)
  | String a (String b (String c (String d ""))) =>
      four a b c d && is_decimal (code4 a b c d)
  | _ => false
  end.

(** A character below 128 that is no digit and no newline, as the letters
    of the two patterns are. *)
Definition is_letter (a : ascii) : bool :=
  negb (is_digit a) && (byte a <? 128)%N && negb (Ascii.eqb a (ascii_of_nat 10)).

(** An id of the kind [letter]: the letter and then one decimal digit or
    more. *)
Definition is_id (letter : ascii) (g : string) : bool :=
  match g with
  | String c ds => Ascii.eqb c letter && negb (String.eqb ds "") && decimal_text ds
  | EmptyString => false
  end.

(** [s] ends with [suffix], or with [suffix] and one last newline. *)
Definition ends_with (s suffix : string) : Prop :=
  ∃ pre, s = pre +:+ suffix ∨ s = pre +:+ suffix +:+ nl.

(** Whether [process_row] returns or raises, read off it statement by
    statement as [row_actions] is. *)
Definition row_outcome (row : json) : outcome () :=
  obind (row_subj row) (λ subj,
  obind (row_subj_label row) (λ subj_label,
  if negb (opt_truthy subj) then Ret ()
  else if ensure_raises subj_label then Raise TypeError
  else
    obind (row_pid row) (λ pid,
    obind (row_prop_label row pid) (λ prop_label,
    obind (row_obj row) (λ obj,
    obind (row_obj_label row) (λ obj_label,
    if negb (opt_truthy obj) then Ret ()
    else if ensure_raises obj_label then Raise TypeError
    else
      obind (make_key (default "" subj) (default "" obj) pid prop_label) (λ _,
        Ret ()))))))).

(** The row yields a subject id. *)
Definition has_subject (row : json) : bool :=
  match row_subj row with
  | Ret subj => opt_truthy subj
  | Raise _ => false
  end.

(** [s'] holds all that [s] holds: every node with at least its labels, the
    edges of [s] first and in their order, every seen key, and no counter
    lower. *)
Definition grows (s s' : KGBuilder) : Prop :=
  (∀ q n, nodes s !! q = Some n →
     ∃ n', nodes s' !! q = Some n' ∧ node_id n' = node_id n ∧
           node_labels n ⊆ node_labels n') ∧
  (∃ new, edges s' = edges s ++ new) ∧
  edge_seen s ⊆ edge_seen s' ∧
  (∀ pc, default 0 (prop_counts s !! pc) ≤ default 0 (prop_counts s' !! pc)).

(** The columns [process_row] reads. *)
Definition row_columns : list string :=
  ["item"; "item1"; "subject"; "itemLabel"; "item1Label"; "subjectLabel";
   "prop"; "p"; "propLabel"; "pl_";
   "value"; "item2"; "o"; "valueLabel"; "item2Label"; "ol_"].

(** The key of a false value: [None], the empty string or zero. *)
Definition falsy_key (h : hval) : bool :=
  match h with
  | HNone => true
  | HStr s => String.eqb s ""
  | HNum x => bool_decide (x = Fin 0)
  end.

(** The ids of the builder have the two shapes the patterns capture. *)
Definition ids_typed (s : KGBuilder) : Prop :=
  (∀ q, q ∈ dom (nodes s) → is_id "Q" q = true) ∧
  ∀ e, e ∈ edges s →
    is_id "Q" (source e) = true ∧ is_id "Q" (target e) = true ∧
    match property_id e with
    | Some p => is_id "P" p = true
    | None => True
    end.

(** A string, an integer, a float or a boolean: what [sanitize_scalar] hands
    back as it is. *)
Definition is_flat (v : pyval) : bool :=
  match v with
  | PJson (JStr _ | JInt _ | JFloat _ _ | JBool _) => true
  | _ => false
  end.

(** The key of a number. *)
Definition is_hnum (h : hval) : Prop := ∃ q, h = HNum q.

(** The two exceptions a row can raise. *)
Definition exn_of_row (e : exn) : Prop := e = TypeError ∨ e = AttributeError.

(** * Properties *)

(** ** What a call does to the builder *)

Lemma set_nodes_id s : set_nodes s (nodes s) = s.
Proof. by destruct s. Qed.

Lemma node_eta n : Node (node_id n) (node_labels n) = n.
Proof. by destruct n. Qed.

Lemma add_label_None_present q n s :
  nodes s !! q = Some n → add_label q None s = s.
Proof.
  intros Hq. unfold add_label. rewrite Hq. simpl.
  rewrite (left_id_L ∅ (∪)), node_eta, insert_id by done.
  apply set_nodes_id.
Qed.

Lemma add_label_twice q k s :
  add_label q k (add_label q None s) = add_label q k s.
Proof.
  unfold add_label. destruct s as [ns es seen pc]. simpl.
  rewrite lookup_insert_eq. simpl. unfold set_nodes. simpl.
  rewrite insert_insert_eq, (left_id_L ∅ (∪)). done.
Qed.

(** [ensure_node] leaves the builder that [add_label] describes, also when
    it raises on a label that cannot be hashed. *)
Lemma ensure_node_run q label s :
  run (ensure_node q label) s = add_label q (label_key label) s.
Proof.
  unfold run, ensure_node, label_key.
  destruct (truthy label) eqn:Ht.
  - destruct (hash_key label) as [k|e] eqn:Hk; simpl.
    + destruct (nodes s !! q) as [n|] eqn:Hq; simpl.
      * unfold add_label. rewrite Hq. done.
      * rewrite <-(add_label_twice q (Some k) s).
        unfold add_label at 2. rewrite Hq. simpl.
        rewrite (left_id_L ∅ (∪)).
        unfold add_label. simpl. rewrite lookup_insert_eq. simpl.
        by rewrite insert_insert_eq.
    + destruct (nodes s !! q) as [n|] eqn:Hq; simpl.
      * by rewrite (add_label_None_present q n).
      * unfold add_label. rewrite Hq. simpl. by rewrite (left_id_L ∅ (∪)).
  - simpl. destruct (nodes s !! q) as [n|] eqn:Hq; simpl.
    + by rewrite (add_label_None_present q n).
    + unfold add_label. rewrite Hq. simpl. by rewrite (left_id_L ∅ (∪)).
Qed.

Lemma ensure_node_outcome q label s :
  is_ret (ensure_node q label s).2 = negb (ensure_raises label).
Proof.
  unfold ensure_node, ensure_raises.
  destruct (truthy label); [|done].
  by destruct (hash_key label).
Qed.

Lemma add_edge_run src dst pid prop_label s :
  run (add_edge src dst pid prop_label) s =
    match make_key src dst pid prop_label with
    | Ret key => put_edge (Edge src dst pid prop_label) key s
    | Raise _ => s
    end.
Proof.
  unfold run, add_edge, put_edge.
  destruct (make_key src dst pid prop_label) as [key|e]; [|done].
  by destruct (bool_decide (key ∈ edge_seen s)).
Qed.

(** [process_row] leaves the builder that the row's changes describe. *)
Lemma process_row_run row s :
  run (process_row row) s = apply_all (row_actions row) s.
Proof.
  unfold run, process_row, row_actions, bind, lift, ret, after.
  destruct (row_subj row) as [subj|?]; [|done].
  destruct (row_subj_label row) as [sl|?]; [|done].
  destruct (opt_truthy subj); simpl; [|done].
  pose proof (ensure_node_run (default "" subj) sl s) as Hrun.
  pose proof (ensure_node_outcome (default "" subj) sl s) as Hout.
  unfold run in Hrun.
  destruct (ensure_node (default "" subj) sl s) as [s1 [n|e]]; simpl in *;
    subst s1; destruct (ensure_raises sl); try done.
  destruct (row_pid row) as [pid|?]; [|done].
  destruct (row_prop_label row pid) as [pl|?]; [|done].
  destruct (row_obj row) as [obj|?]; [|done].
  destruct (row_obj_label row) as [ol|?]; [|done].
  destruct (opt_truthy obj); simpl; [|done].
  set (s1 := add_label (default "" subj) (label_key sl) s).
  pose proof (ensure_node_run (default "" obj) ol s1) as Hrun2.
  pose proof (ensure_node_outcome (default "" obj) ol s1) as Hout2.
  unfold run in Hrun2.
  destruct (ensure_node (default "" obj) ol s1) as [s2 [n2|e]]; simpl in *;
    subst s2; destruct (ensure_raises ol); try done.
  pose proof (add_edge_run (default "" subj) (default "" obj) pid pl
                (add_label (default "" obj) (label_key ol) s1)) as Hrun3.
  unfold run in Hrun3. rewrite Hrun3.
  by destruct (make_key (default "" subj) (default "" obj) pid pl).
Qed.

Lemma apply_all_app l1 l2 s :
  apply_all (l1 ++ l2) s = apply_all l2 (apply_all l1 s).
Proof. apply foldl_app. Qed.

Lemma ingest_actions rows s :
  ingest rows s = apply_all (concat (map row_actions rows)) s.
Proof.
  revert s. induction rows as [|row rows IH]; intros s; simpl; [done|].
  by rewrite IH, process_row_run, apply_all_app.
Qed.

Lemma ingest_app rows1 rows2 s :
  ingest (rows1 ++ rows2) s = ingest rows2 (ingest rows1 s).
Proof.
  revert s. induction rows1 as [|row rows1 IH]; intros s; simpl; [done|].
  apply IH.
Qed.

Lemma ingest_files_rows files s :
  ingest_files files s = ingest (concat (map file_rows files)) s.
Proof.
  revert s. induction files as [|f files IH]; intros s; simpl; [done|].
  by rewrite IH, ingest_app.
Qed.

Lemma row_actions_shape row : row_shape (row_actions row).
Proof.
  unfold row_actions, after.
  destruct (row_subj row) as [subj|?]; [|constructor].
  destruct (row_subj_label row) as [sl|?]; [|constructor].
  destruct (opt_truthy subj); simpl; [|constructor].
  destruct (ensure_raises sl); [constructor|].
  destruct (row_pid row) as [pid|?]; [|constructor].
  destruct (row_prop_label row pid) as [pl|?]; [|constructor].
  destruct (row_obj row) as [obj|?]; [|constructor].
  destruct (row_obj_label row) as [ol|?]; [|constructor].
  destruct (opt_truthy obj); simpl; [|constructor].
  destruct (ensure_raises ol); [constructor|].
  destruct (make_key (default "" subj) (default "" obj) pid pl) as [key|?] eqn:Hk;
    by constructor.
Qed.

(** ** Invariants of the builder *)

Lemma consistent_init : consistent KGBuilder_init.
Proof.
  exists []. split; simpl; [constructor|constructor|done|].
  intros pc. by rewrite lookup_empty.
Qed.

Lemma count_pair_app pc ks k :
  count_pair pc (ks ++ [k]) =
    count_pair pc ks + (if decide (key_pair k = pc) then 1 else 0).
Proof.
  unfold count_pair. rewrite filter_app, length_app. f_equal.
  rewrite filter_cons, filter_nil. by destruct (decide (key_pair k = pc)).
Qed.

Lemma consistent_add_label q k s : consistent s → consistent (add_label q k s).
Proof. intros [ks [H1 H2 H3 H4]]. exists ks. by split. Qed.

Lemma consistent_put_edge e key s :
  stored_key e = Ret key → consistent s → consistent (put_edge e key s).
Proof.
  intros Hkey [ks [H1 H2 H3 H4]]. unfold put_edge.
  destruct (bool_decide (key ∈ edge_seen s)) eqn:Hin.
  { by exists ks. }
  apply bool_decide_eq_false in Hin.
  exists (ks ++ [key]). split; simpl.
  - apply Forall2_app; [done|]. by repeat constructor.
  - apply NoDup_app. split; [done|]. split; [|apply NoDup_singleton].
    intros x Hx ->%list_elem_of_singleton. apply Hin. rewrite H3.
    by apply elem_of_list_to_set.
  - rewrite H3, list_to_set_app_L. simpl.
    by rewrite (right_id_L ∅ (∪)), (comm_L (∪)).
  - intros pc. rewrite count_pair_app. fold (key_pair key).
    destruct (decide (key_pair key = pc)) as [->|Hne].
    + rewrite lookup_insert_eq. simpl. rewrite H4. lia.
    + rewrite lookup_insert_ne by done. rewrite H4. lia.
Qed.

Lemma consistent_ensure_node q label s :
  consistent s → consistent (run (ensure_node q label) s).
Proof. rewrite ensure_node_run. apply consistent_add_label. Qed.

Lemma consistent_add_edge src dst pid prop_label s :
  consistent s → consistent (run (add_edge src dst pid prop_label) s).
Proof.
  rewrite add_edge_run. intros Hs.
  destruct (make_key src dst pid prop_label) as [key|?] eqn:Hk; [|done].
  by apply consistent_put_edge.
Qed.

Create HintDb builder_inv discriminated.
#[local] Hint Resolve consistent_put_edge consistent_add_label : builder_inv.

Lemma consistent_row_shape l s : row_shape l → consistent s → consistent (apply_all l s).
Proof. intros Hl Hs. destruct Hl; simpl; auto with builder_inv. Qed.

Lemma consistent_process_row row s :
  consistent s → consistent (run (process_row row) s).
Proof. rewrite process_row_run. apply consistent_row_shape, row_actions_shape. Qed.

Lemma consistent_ingest rows s : consistent s → consistent (ingest rows s).
Proof.
  revert s. induction rows as [|row rows IH]; intros s Hs; simpl; [done|].
  by apply IH, consistent_process_row.
Qed.

Lemma nodes_add_label q k s :
  nodes (add_label q k s) =
    <[q := Node (node_id (default (Node q ∅) (nodes s !! q)))
             (from_option singleton ∅ k ∪
                node_labels (default (Node q ∅) (nodes s !! q)))]> (nodes s).
Proof. done. Qed.

Lemma edges_add_label q k s : edges (add_label q k s) = edges s.
Proof. done. Qed.

Lemma dom_add_label q k s : dom (nodes (add_label q k s)) = {[q]} ∪ dom (nodes s).
Proof. rewrite nodes_add_label. apply dom_insert_L. Qed.

Lemma ids_ok_add_label q k s : ids_ok s → ids_ok (add_label q k s).
Proof.
  intros Hs q' n. rewrite nodes_add_label, lookup_insert.
  case_decide as Hq; [|apply Hs]. subst q'. intros [= <-]. simpl.
  destruct (nodes s !! q) as [n|] eqn:E; simpl; [by apply Hs|done].
Qed.

Lemma ids_ok_put_edge e key s : ids_ok s → ids_ok (put_edge e key s).
Proof. unfold put_edge. by case_bool_decide. Qed.

Lemma endpoints_ok_add_label q k s : endpoints_ok s → endpoints_ok (add_label q k s).
Proof.
  intros Hs e He. rewrite dom_add_label. rewrite edges_add_label in He.
  destruct (Hs e He) as [Hsrc Hdst].
  split; apply elem_of_union; by right.
Qed.

Lemma endpoints_ok_put_edge e key s :
  source e ∈ dom (nodes s) → target e ∈ dom (nodes s) →
  endpoints_ok s → endpoints_ok (put_edge e key s).
Proof.
  intros Hsrc Hdst Hs. unfold put_edge. case_bool_decide; [done|].
  intros e'. simpl. rewrite elem_of_app, list_elem_of_singleton.
  intros [He| ->]; [by apply Hs|done].
Qed.

Lemma endpoints_ok_row_shape l s :
  row_shape l → endpoints_ok s → endpoints_ok (apply_all l s).
Proof.
  intros Hl Hs. destruct Hl as [|q k|q k q' k'|q k q' k' pid pl key Hkey]; simpl.
  - done.
  - by apply endpoints_ok_add_label.
  - by do 2 apply endpoints_ok_add_label.
  - apply endpoints_ok_put_edge; [| |by do 2 apply endpoints_ok_add_label];
      cbn [source target]; rewrite !dom_add_label.
    + apply elem_of_union. right. apply elem_of_union. left.
      by apply elem_of_singleton.
    + apply elem_of_union. left. by apply elem_of_singleton.
Qed.

#[local] Hint Resolve ids_ok_put_edge ids_ok_add_label : builder_inv.

Lemma ids_ok_row_shape l s : row_shape l → ids_ok s → ids_ok (apply_all l s).
Proof. intros Hl Hs. destruct Hl; simpl; auto with builder_inv. Qed.

Lemma endpoints_ok_ingest rows s : endpoints_ok s → endpoints_ok (ingest rows s).
Proof.
  revert s. induction rows as [|row rows IH]; intros s Hs; simpl; [done|].
  apply IH. rewrite process_row_run.
  by apply endpoints_ok_row_shape, Hs; apply row_actions_shape.
Qed.

Lemma ids_ok_ingest rows s : ids_ok s → ids_ok (ingest rows s).
Proof.
  revert s. induction rows as [|row rows IH]; intros s Hs; simpl; [done|].
  apply IH. rewrite process_row_run.
  by apply ids_ok_row_shape, Hs; apply row_actions_shape.
Qed.

(** ** Order of ingestion *)

Global Instance same_summary_equiv : Equivalence same_summary.
Proof.
  split.
  - by intros s.
  - intros s s' (?&?&?). by repeat split.
  - intros s1 s2 s3 (?&?&?) (?&?&?). repeat split; congruence.
Qed.











(** *** A row met again changes nothing *)

Lemma absorbed_apply a s : absorbed a s → apply a s = s.
Proof.
  destruct a as [q k|e key]; simpl.
  - intros (n & Hq & Hk). unfold add_label. rewrite Hq. simpl.
    replace (from_option singleton ∅ k ∪ node_labels n) with (node_labels n).
    + rewrite node_eta, insert_id by done. apply set_nodes_id.
    + destruct k as [x|]; simpl.
      * specialize (Hk x eq_refl). set_solver.
      * by rewrite (left_id_L ∅ (∪)).
  - intros Hin. unfold put_edge. by rewrite bool_decide_eq_true_2.
Qed.

Lemma apply_absorbed a s : absorbed a (apply a s).
Proof.
  destruct a as [q k|e key]; cbn [apply absorbed].
  - eexists. rewrite nodes_add_label, lookup_insert_eq. split; [done|].
    intros x ->. simpl. set_solver.
  - unfold put_edge. case_bool_decide; [done|]. simpl. set_solver.
Qed.

Lemma absorbed_mono a b s : absorbed a s → absorbed a (apply b s).
Proof.
  destruct a as [q k|e key], b as [q' k'|e' key']; cbn [apply absorbed].
  - intros (n & Hq & Hk). rewrite nodes_add_label.
    destruct (decide (q' = q)) as [->|Hne].
    + rewrite Hq, lookup_insert_eq. eexists. split; [done|]. simpl.
      intros x Hx. specialize (Hk x Hx). set_solver.
    + rewrite lookup_insert_ne by done. by exists n.
  - unfold put_edge. by case_bool_decide.
  - done.
  - unfold put_edge. case_bool_decide; [done|]. simpl. set_solver.
Qed.

Lemma all_absorbed_apply_all l s : all_absorbed l s → apply_all l s = s.
Proof.
  induction l as [|a l IH]; simpl; [done|].
  intros [Ha Hl]%Forall_cons. rewrite (absorbed_apply a s Ha). by apply IH.
Qed.

Lemma all_absorbed_mono l b s : all_absorbed l s → all_absorbed l (apply b s).
Proof.
  intros Hl. eapply Forall_impl; [exact Hl|]. intros a. apply absorbed_mono.
Qed.

Lemma all_absorbed_mono_all l bs s :
  all_absorbed l s → all_absorbed l (apply_all bs s).
Proof.
  revert s. induction bs as [|b bs IH]; intros s Hs; simpl; [done|].
  by apply IH, all_absorbed_mono.
Qed.

Lemma apply_all_absorbed l s : all_absorbed l (apply_all l s).
Proof.
  revert s. induction l as [|a l IH] using rev_ind; intros s; [constructor|].
  rewrite apply_all_app. simpl. apply Forall_app. split.
  - apply all_absorbed_mono, IH.
  - apply Forall_singleton, apply_absorbed.
Qed.

(** Once a row was processed, processing it again at any later point leaves
    the builder as it is. *)
Lemma process_row_again row rows s :
  let s' := ingest rows (run (process_row row) s) in
  run (process_row row) s' = s'.
Proof.
  simpl. rewrite !process_row_run, ingest_actions.
  apply all_absorbed_apply_all, all_absorbed_mono_all, apply_all_absorbed.
Qed.

Example round_trip c :
  let s := ingest_files [file_a; file_a] KGBuilder_init in
  edges s = [earth_edge] ∧ dom (nodes s) = {["Q1"; "Q2"]} ∧
  build c [file_a; file_a] KGBuilder_init =
    Ret (MkGraph {[ "Q1" := NodeNorm "Q1" (HStr "Earth") [HStr "Earth"];
                    "Q2" := NodeNorm "Q2" (HStr "Planet") [HStr "Planet"] ]}
                 [earth_edge]).
Proof. vm_compute. done. Qed.

(** ** Reachable builders *)

Lemma row_reachable_ingest rows s : row_reachable s → row_reachable (ingest rows s).
Proof.
  revert s. induction rows as [|row rows IH]; intros s Hs; simpl; [done|].
  by apply IH, row_step.
Qed.

Lemma call_reachable_consistent s : call_reachable s → consistent s.
Proof.
  induction 1; auto using consistent_init, consistent_ensure_node, consistent_add_edge.
Qed.

Lemma dedup_consistent_size s ks :
  dedup_consistent s ks → length (edges s) = size (edge_seen s).
Proof.
  intros [H1 H2 H3 H4]. rewrite H3, size_list_to_set by done.
  by eapply Forall2_length.
Qed.

(** ** Dedup structures and edge endpoints *)

(** C10. In every builder reached by calls of [ensure_node] and [add_edge],
    the stored edges have pairwise different dedup keys, [edge_seen] is the
    set of those keys (so there are as many edges as seen keys), and for
    every (pid-or-empty, label-or-empty) pair [prop_counts] holds the number
    of stored edges with that pair. *)
Theorem dedup_structures_consistent s :
  call_reachable s →
  ∃ ks : list edge_key,
    Forall2 (λ e k, stored_key e = Ret k) (edges s) ks ∧
    NoDup ks ∧
    edge_seen s = list_to_set ks ∧
    length (edges s) = size (edge_seen s) ∧
    ∀ pc, default 0 (prop_counts s !! pc) = count_pair pc ks.
Proof.
  intros Hs. destruct (call_reachable_consistent s Hs) as [ks Hks].
  pose proof (dedup_consistent_size s ks Hks).
  destruct Hks. by exists ks.
Qed.

Lemma dedup_structures_consistent_witness :
  ∃ ks : list edge_key,
    let s := run (add_edge "Q1" "Q2" (Some "P31") (JStr "instance of"))
               (run (add_edge "Q1" "Q2" (Some "P31") (JStr "instance of"))
                  (run (ensure_node "Q2" (JStr "Planet"))
                     (run (ensure_node "Q1" (JStr "Earth")) KGBuilder_init))) in
    Forall2 (λ e k, stored_key e = Ret k) (edges s) ks ∧
    NoDup ks ∧
    edge_seen s = list_to_set ks ∧
    length (edges s) = size (edge_seen s) ∧
    ∀ pc, default 0 (prop_counts s !! pc) = count_pair pc ks.
Proof.
  apply (dedup_structures_consistent
           (run (add_edge "Q1" "Q2" (Some "P31") (JStr "instance of"))
              (run (add_edge "Q1" "Q2" (Some "P31") (JStr "instance of"))
                 (run (ensure_node "Q2" (JStr "Planet"))
                    (run (ensure_node "Q1" (JStr "Earth")) KGBuilder_init))))).
  repeat constructor.
Defined.

(** C4. In every builder reached by processing rows, both the source and
    the target of every stored edge are keys of the node map. *)
Theorem edge_endpoints_are_nodes s e :
  row_reachable s → e ∈ edges s →
  source e ∈ dom (nodes s) ∧ target e ∈ dom (nodes s).
Proof.
  intros Hs. revert e. change (endpoints_ok s).
  induction Hs as [|row s _ IH].
  - intros e He. by apply elem_of_nil in He.
  - rewrite process_row_run. by apply endpoints_ok_row_shape, IH; apply row_actions_shape.
Qed.

Lemma edge_endpoints_are_nodes_witness :
  let s := run (process_row moon_row) (run (process_row earth_row) KGBuilder_init) in
  source earth_edge ∈ dom (nodes s) ∧ target earth_edge ∈ dom (nodes s).
Proof.
  apply (edge_endpoints_are_nodes
           (run (process_row moon_row) (run (process_row earth_row) KGBuilder_init))
           earth_edge).
  - repeat constructor.
  - vm_compute. constructor.
Defined.

(** ** Row normalizer *)

Lemma match_here_nonempty lit letter s g :
  match_here lit letter s = Some g → g ≠ "".
Proof.
  unfold match_here. destruct (strip_prefix lit s) as [[|c rest]|]; try done.
  destruct (Ascii.eqb c letter); [|done].
  destruct (span_digits rest) as [ds tl].
  destruct (negb (String.eqb ds "") && at_end tl); [|done].
  by intros [= <-].
Qed.

Lemma re_search_nonempty lit letter s g :
  re_search lit letter s = Some g → g ≠ "".
Proof.
  induction s as [|c s IH]; simpl.
  - destruct (match_here lit letter "") eqn:E; [|done].
    intros [= <-]. by eapply match_here_nonempty.
  - destruct (match_here lit letter (String c s)) eqn:E; [|done].
    intros [= <-]. by eapply match_here_nonempty.
Qed.

Lemma search_value_truthy lit letter v g :
  search_value lit letter v = Ret (Some g) → opt_truthy (Some g) = true.
Proof.
  unfold search_value. destruct v; try done. intros [= E].
  apply re_search_nonempty in E. simpl. by apply negb_true_iff, String.eqb_neq.
Qed.

Lemma or_id_Some a b g :
  or_id a b = Ret (Some g) → a = Ret (Some g) ∨ b = Ret (Some g).
Proof.
  unfold or_id, obind. destruct a as [x|e]; [|done].
  destruct (opt_truthy x); [|by right]. intros [= ->]. by left.
Qed.

Lemma qid_at_truthy row k g : qid_at row k = Ret (Some g) → opt_truthy (Some g) = true.
Proof.
  unfold qid_at, obind. destruct (row_get row k); [|done].
  apply search_value_truthy.
Qed.

Lemma pid_at_truthy row k g : pid_at row k = Ret (Some g) → opt_truthy (Some g) = true.
Proof.
  unfold pid_at, obind. destruct (row_get row k); [|done].
  apply search_value_truthy.
Qed.

Lemma row_subj_truthy row g : row_subj row = Ret (Some g) → opt_truthy (Some g) = true.
Proof.
  unfold row_subj. intros [H|[H|H]%or_id_Some]%or_id_Some; by eapply qid_at_truthy.
Qed.

Lemma row_obj_truthy row g : row_obj row = Ret (Some g) → opt_truthy (Some g) = true.
Proof.
  unfold row_obj. intros [H|[H|H]%or_id_Some]%or_id_Some; by eapply qid_at_truthy.
Qed.

Lemma row_pid_truthy row g : row_pid row = Ret (Some g) → opt_truthy (Some g) = true.
Proof.
  unfold row_pid. intros [H|H]%or_id_Some; by eapply pid_at_truthy.
Qed.

(** A row that is not a dict raises at its first [row.get]. *)
Lemma or_id_Ret a b x : or_id a b = Ret x → ∃ y, a = Ret y.
Proof. unfold or_id, obind. destruct a; [eauto|done]. Qed.

Lemma row_subj_dict row x : row_subj row = Ret x → ∃ items, row = JDict items.
Proof.
  unfold row_subj. intros [y Hy]%or_id_Ret. unfold qid_at, row_get, py_get in Hy.
  destruct row; try done. eauto.
Qed.

Lemma value_at_dict items k : value_at (JDict items) k = Ret (get_value (dict_get items k JNull)).
Proof. done. Qed.

Lemma or_val_Ret a b x y : a = Ret x → b = Ret y → or_val a b = Ret (py_or x y).
Proof. intros -> ->. unfold or_val, py_or. simpl. by destruct (truthy x). Qed.

Lemma row_subj_label_dict items :
  ∃ label, row_subj_label (JDict items) = Ret label.
Proof.
  unfold row_subj_label. rewrite !value_at_dict.
  eexists. apply or_val_Ret; [done|]. by apply or_val_Ret.
Qed.

(** The changes of a row, case by case, with what the row normalizer found. *)
Lemma row_actions_cases row :
  row_actions row = [] ∨
  ∃ q label,
    row_subj row = Ret (Some q) ∧ row_subj_label row = Ret label ∧
    (row_actions row = [ANode q (label_key label)] ∨
     ∃ pid pl o ol,
       row_pid row = Ret pid ∧ row_prop_label row pid = Ret pl ∧
       row_obj row = Ret (Some o) ∧ row_obj_label row = Ret ol ∧
       (row_actions row = [ANode q (label_key label); ANode o (label_key ol)] ∨
        ∃ key, make_key q o pid pl = Ret key ∧
          row_actions row =
            [ANode q (label_key label); ANode o (label_key ol);
             AEdge (Edge q o pid pl) key])).
Proof.
  unfold row_actions, after.
  destruct (row_subj row) as [subj|?]; [|by left].
  destruct (row_subj_label row) as [sl|?]; [|by left].
  destruct subj as [q|]; [|by left].
  destruct (opt_truthy (Some q)); [|by left].
  right. exists q, sl. split; [done|]. split; [done|].
  cbn [negb default from_option id].
  destruct (ensure_raises sl); [by left|].
  destruct (row_pid row) as [pid|?] eqn:Hpid; [|by left].
  destruct (row_prop_label row pid) as [pl|?] eqn:Hpl; [|by left].
  destruct (row_obj row) as [obj|?] eqn:Hobj; [|by left].
  destruct (row_obj_label row) as [ol|?] eqn:Hol; [|by left].
  destruct obj as [o|]; [|by left].
  destruct (opt_truthy (Some o)); [|by left].
  right. exists pid, pl, o, ol. repeat split; try done.
  cbn [negb default from_option id].
  destruct (ensure_raises ol); [by left|].
  destruct (make_key q o pid pl) as [key|?]; [|by left].
  right. by exists key.
Qed.

(** Case analysis on the changes of [row], naming what the row normalizer
    found. *)
Ltac row_cases row :=
  destruct (row_actions_cases row)
    as [->|(q&l&Hq&Hl&[->|(pid&pl&o&ol&Hpid&Hpl&Ho&Hol&[->|(key&Hkey&->)])])];
  cbn [apply_all foldl apply].

(** With no object id, a row changes the builder as [ensure_node] on its
    subject does. *)
Lemma row_actions_no_obj row q label :
  row_subj row = Ret (Some q) → row_subj_label row = Ret label →
  (∀ o, row_obj row ≠ Ret (Some o)) →
  row_actions row = [ANode q (label_key label)].
Proof.
  intros Hq Hl Hobj. destruct (row_actions_cases row) as [Hnil|(q'&l'&Hq'&Hl'&H)].
  - unfold row_actions, after in Hnil. rewrite Hq, Hl in Hnil.
    by rewrite (row_subj_truthy row q Hq) in Hnil.
  - rewrite Hq in Hq'. rewrite Hl in Hl'. simplify_eq.
    destruct H as [H|(pid&pl&o&ol&_&_&Ho&_)]; [done|]. by destruct (Hobj o).
Qed.

(** C2. The skip policy of [process_row]: when no subject id resolves the
    builder is left as it was; when a subject id resolves and no object id
    does, the builder is left as [ensure_node] on the subject and its label
    leaves it, with the subject node holding its label when that is
    non-empty, and no edge, seen key or counter is added. *)
Theorem process_row_skip_policy row s :
  ((∀ q, row_subj row ≠ Ret (Some q)) → run (process_row row) s = s) ∧
  (∀ q, row_subj row = Ret (Some q) → (∀ o, row_obj row ≠ Ret (Some o)) →
     ∃ label,
       row_subj_label row = Ret label ∧
       run (process_row row) s = run (ensure_node q label) s ∧
       nodes (run (process_row row) s) =
         <[q := Node (node_id (default (Node q ∅) (nodes s !! q)))
                  (from_option singleton ∅ (label_key label) ∪
                     node_labels (default (Node q ∅) (nodes s !! q)))]> (nodes s) ∧
       edges (run (process_row row) s) = edges s ∧
       edge_seen (run (process_row row) s) = edge_seen s ∧
       prop_counts (run (process_row row) s) = prop_counts s).
Proof.
  split.
  - intros Hsubj. rewrite process_row_run.
    destruct (row_actions_cases row) as [->|(q&l&Hq&_)]; [done|].
    by destruct (Hsubj q).
  - intros q Hq Hobj.
    destruct (row_subj_dict row _ Hq) as [items ->].
    destruct (row_subj_label_dict items) as [label Hl].
    exists label. split; [done|].
    rewrite process_row_run, (row_actions_no_obj _ q label Hq Hl Hobj).
    simpl. by rewrite ensure_node_run.
Qed.

Lemma process_row_skip_policy_witness :
  let s := run (process_row earth_row) KGBuilder_init in
  run (process_row (JDict [("itemLabel", literal "Earth")])) s = s ∧
  ∃ label,
    row_subj_label mass_row = Ret label ∧
    run (process_row mass_row) s = run (ensure_node "Q1" label) s ∧
    nodes (run (process_row mass_row) s) =
      <["Q1" := Node (node_id (default (Node "Q1" ∅) (nodes s !! "Q1")))
                  (from_option singleton ∅ (label_key label) ∪
                     node_labels (default (Node "Q1" ∅) (nodes s !! "Q1")))]> (nodes s) ∧
    edges (run (process_row mass_row) s) = edges s ∧
    edge_seen (run (process_row mass_row) s) = edge_seen s ∧
    prop_counts (run (process_row mass_row) s) = prop_counts s.
Proof.
  split.
  - apply (proj1 (process_row_skip_policy (JDict [("itemLabel", literal "Earth")])
                    (run (process_row earth_row) KGBuilder_init))).
    intros q. vm_compute. discriminate.
  - apply (proj2 (process_row_skip_policy mass_row
                    (run (process_row earth_row) KGBuilder_init)) "Q1").
    + vm_compute. reflexivity.
    + intros o. vm_compute. discriminate.
Defined.

(** ** The edge of a row, and rows met again *)

Lemma edges_put_edge e key s :
  edges (put_edge e key s) = edges s ∨ edges (put_edge e key s) = edges s ++ [e].
Proof. unfold put_edge. case_bool_decide; [by left|by right]. Qed.

Lemma app_singleton_self {A} (l : list A) x : l ≠ l ++ [x].
Proof.
  intros H. apply (f_equal length) in H. rewrite length_app in H. simpl in H. lia.
Qed.

(** When a row appends an edge, that edge holds what the row normalizer
    found in the row. *)
Lemma process_row_new_edge row s e :
  edges (run (process_row row) s) = edges s ++ [e] →
  ∃ q o pid pl,
    row_subj row = Ret (Some q) ∧ row_obj row = Ret (Some o) ∧
    row_pid row = Ret pid ∧ row_prop_label row pid = Ret pl ∧
    e = Edge q o pid pl.
Proof.
  rewrite process_row_run. row_cases row.
  - intros H. by apply app_singleton_self in H.
  - rewrite edges_add_label. intros H. by apply app_singleton_self in H.
  - rewrite !edges_add_label. intros H. by apply app_singleton_self in H.
  - destruct (edges_put_edge (Edge q o pid pl) key
                (add_label o (label_key ol) (add_label q (label_key l) s)))
      as [->| ->]; rewrite !edges_add_label.
    + intros H. by apply app_singleton_self in H.
    + intros [= <-]%app_inv_head. by exists q, o, pid, pl.
Qed.

Lemma process_row_edges row s :
  edges (run (process_row row) s) = edges s ∨
  ∃ e, edges (run (process_row row) s) = edges s ++ [e].
Proof.
  rewrite process_row_run.
  destruct (row_actions_shape row) as [|q k|q k q' k'|q k q' k' pid pl key Hkey];
    cbn [apply_all foldl apply]; rewrite ?edges_add_label; try by left.
  destruct (edges_put_edge (Edge q q' pid pl) key (add_label q' k' (add_label q k s)))
    as [->| ->]; rewrite !edges_add_label; [by left|right; eauto].
Qed.

Lemma or_val_truthy a b x :
  or_val a b = Ret x → (∀ y, b = Ret y → truthy y = true) → truthy x = true.
Proof.
  unfold or_val, obind. destruct a as [v|?]; [|done].
  destruct (truthy v) eqn:Hv; [by intros [= <-]|]. intros Hb Hy. by apply Hy.
Qed.

(** C8. For a row in which a property id resolves, an edge appended for the
    row stores that property id and a property label that is true, hence
    not the empty string; and when both property-label columns yield the
    empty string the stored property label is the property id itself. *)
Theorem property_label_fallback row s pid e :
  row_pid row = Ret (Some pid) →
  edges (run (process_row row) s) = edges s ++ [e] →
  property_id e = Some pid ∧
  truthy (property_label e) = true ∧
  property_label e ≠ JStr "" ∧
  (value_at row "propLabel" = Ret (JStr "") → value_at row "pl_" = Ret (JStr "") →
   property_label e = JStr pid).
Proof.
  intros Hpid (q&o&pid'&pl&_&_&Hpid'&Hpl&->)%process_row_new_edge.
  rewrite Hpid in Hpid'. injection Hpid' as <-. simpl.
  assert (truthy pl = true) as Hpl_true.
  { unfold row_prop_label in Hpl.
    eapply or_val_truthy; [exact Hpl|]. intros y Hy.
    eapply or_val_truthy; [exact Hy|]. intros z [= <-].
    apply (row_pid_truthy row pid Hpid). }
  split; [done|]. split; [done|]. split.
  - intros ->. done.
  - intros H1 H2. unfold row_prop_label in Hpl. rewrite H1, H2 in Hpl.
    by injection Hpl as <-.
Qed.

Lemma property_label_fallback_witness :
  property_id (Edge "Q405" "Q1" (Some "P397") (JStr "P397")) = Some "P397" ∧
  truthy (property_label (Edge "Q405" "Q1" (Some "P397") (JStr "P397"))) = true ∧
  property_label (Edge "Q405" "Q1" (Some "P397") (JStr "P397")) ≠ JStr "" ∧
  (value_at moon_row "propLabel" = Ret (JStr "") → value_at moon_row "pl_" = Ret (JStr "") →
   property_label (Edge "Q405" "Q1" (Some "P397") (JStr "P397")) = JStr "P397").
Proof.
  apply (property_label_fallback moon_row KGBuilder_init "P397"
           (Edge "Q405" "Q1" (Some "P397") (JStr "P397"))).
  - vm_compute. reflexivity.
  - vm_compute. reflexivity.
Defined.

(** *** What ingestion stores *)

Lemma dom_apply_all l s q :
  q ∈ dom (nodes (apply_all l s)) ↔ q ∈ dom (nodes s) ∨ ∃ k, ANode q k ∈ l.
Proof.
  revert s. induction l as [|a l IH]; intros s; cbn [apply_all foldl].
  - split; [by left|]. intros [?|[k Hk]]; [done|]. by apply elem_of_nil in Hk.
  - fold (apply_all l (apply a s)). rewrite IH. destruct a as [q' k'|e key]; cbn [apply].
    + rewrite dom_add_label, elem_of_union, elem_of_singleton. split.
      * intros [[->|?]|[k Hk]]; [right; exists k'; by left|by left|].
        right. exists k. by right.
      * intros [?|[k [[= -> ->]|Hk]%elem_of_cons]]; [by left; right|by left; left|].
        right. by exists k.
    + assert (nodes (put_edge e key s) = nodes s) as ->.
      { unfold put_edge. by case_bool_decide. }
      split.
      * intros [?|[k Hk]]; [by left|]. right. exists k. by right.
      * intros [?|[k [[=]|Hk]%elem_of_cons]]; [by left|]. right. by exists k.
Qed.

Lemma seen_apply_all l s key :
  key ∈ edge_seen (apply_all l s) ↔ key ∈ edge_seen s ∨ ∃ e, AEdge e key ∈ l.
Proof.
  revert s. induction l as [|a l IH]; intros s; cbn [apply_all foldl].
  - split; [by left|]. intros [?|[e He]]; [done|]. by apply elem_of_nil in He.
  - fold (apply_all l (apply a s)). rewrite IH. destruct a as [q' k'|e' key']; cbn [apply].
    + change (edge_seen (add_label q' k' s)) with (edge_seen s). split.
      * intros [?|[e He]]; [by left|]. right. exists e. by right.
      * intros [?|[e [[=]|He]%elem_of_cons]]; [by left|]. right. by exists e.
    + assert (key ∈ edge_seen (put_edge e' key' s) ↔ key = key' ∨ key ∈ edge_seen s)
        as ->.
      { unfold put_edge. case_bool_decide; simpl; set_solver. }
      split.
      * intros [[->|?]|[e He]]; [right; exists e'; by left|by left|].
        right. exists e. by right.
      * intros [?|[e [[= -> ->]|He]%elem_of_cons]]; [by left; right|by left; left|].
        right. by exists e.
Qed.

Lemma elem_of_concat {A} (x : A) (ls : list (list A)) :
  x ∈ concat ls ↔ ∃ l, x ∈ l ∧ l ∈ ls.
Proof.
  induction ls as [|l0 ls IH]; simpl.
  - split; [by intros ?%elem_of_nil|]. by intros (l & _ & ?%elem_of_nil).
  - rewrite elem_of_app, IH. split.
    + intros [?|(l & ? & ?)]; [exists l0; split; [done|by left]|].
      exists l. split; [done|by right].
    + intros (l & Hx & [->|?]%elem_of_cons); [by left|right; eauto].
Qed.

(** The ids and the keys a batch of rows leaves are those its rows leave,
    each taken alone. *)
Lemma ingest_stores rows :
  (∀ q, q ∈ dom (nodes (ingest rows KGBuilder_init)) ↔
        ∃ row, row ∈ rows ∧ q ∈ dom (nodes (run (process_row row) KGBuilder_init))) ∧
  (∀ key, key ∈ edge_seen (ingest rows KGBuilder_init) ↔
          ∃ row, row ∈ rows ∧ key ∈ edge_seen (run (process_row row) KGBuilder_init)).
Proof.
  split.
  - intros q. rewrite ingest_actions, dom_apply_all. simpl. rewrite dom_empty_L. split.
    + intros [?|[k Hk]]; [set_solver|].
      apply elem_of_concat in Hk as (l & Hk & (row & -> & Hrow)%list_elem_of_fmap).
      exists row. split; [done|]. rewrite process_row_run, dom_apply_all. eauto.
    + intros (row & Hrow & Hq). rewrite process_row_run, dom_apply_all in Hq.
      destruct Hq as [Hq|[k Hk]]; [simpl in Hq; set_solver|]. right. exists k.
      apply elem_of_concat. exists (row_actions row). split; [done|].
      apply list_elem_of_fmap. eauto.
  - intros key. rewrite ingest_actions, seen_apply_all. simpl. split.
    + intros [?|[e He]]; [set_solver|].
      apply elem_of_concat in He as (l & He & (row & -> & Hrow)%list_elem_of_fmap).
      exists row. split; [done|]. rewrite process_row_run, seen_apply_all. eauto.
    + intros (row & Hrow & Hk). rewrite process_row_run, seen_apply_all in Hk.
      destruct Hk as [Hk|[e He]]; [simpl in Hk; set_solver|]. right. exists e.
      apply elem_of_concat. exists (row_actions row). split; [done|].
      apply list_elem_of_fmap. eauto.
Qed.

Lemma stored_key_ends e key :
  stored_key e = Ret key → source e = key.1.1.1 ∧ target e = key.1.1.2.
Proof.
  unfold stored_key, make_key, obind.
  destruct (hash_key _); [|done]. by intros [= <-].
Qed.

(** Where the keys of the edges are all different, a seen key is the key of
    one edge and no more. *)
Lemma dedup_consistent_one_edge s ks key :
  dedup_consistent s ks → key ∈ edge_seen s →
  ∃ e, filter (λ e', stored_key e' = Ret key) (edges s) = [e].
Proof.
  intros [H1 H2 H3 _]. rewrite H3, elem_of_list_to_set.
  clear H3. revert H2. induction H1 as [|e k es ks Hek H1 IH]; intros Hnd Hin.
  - by apply elem_of_nil in Hin.
  - apply NoDup_cons in Hnd as [Hk Hnd]. rewrite filter_cons.
    destruct (decide (k = key)) as [->|Hne].
    + rewrite decide_True by done. exists e. f_equal.
      clear IH Hin Hnd. induction H1 as [|e' k' es ks Hek' H1 IH]; [done|].
      apply not_elem_of_cons in Hk as [Hne Hk]. rewrite filter_cons.
      rewrite decide_False by congruence. by apply IH.
    + rewrite decide_False by congruence.
      apply elem_of_cons in Hin as [->|Hin]; [done|]. by apply IH.
Qed.

(** C1. Dedup idempotence.  A call of [add_edge] whose key is already in
    [edge_seen] leaves the builder as it is, and so does a call of
    [ensure_node] for an id that is present with a label that is recorded
    (or with no label); a row that was processed before leaves the builder
    as it is when it is processed again, in the same file or a later one.
    And what is stored is stored once: [ensure_node] leaves a node under
    the id, [add_edge] with a new key appends the edge and records the key,
    a row whose subject resolves leaves the subject node, and with it the
    object node and the key of its edge when the object resolves and nothing
    raises; after any rows, the node ids and the seen keys are those that
    the rows leave when each is taken alone, every node sits under its own
    id, the stored edges have pairwise different keys, and every seen key
    is the key of exactly one stored edge, which joins the two ends that the
    key names. *)
Theorem dedup_idempotence :
  (∀ src dst pid prop_label key s,
     make_key src dst pid prop_label = Ret key → key ∈ edge_seen s →
     add_edge src dst pid prop_label s = (s, Ret ())) ∧
  (∀ q label n s,
     nodes s !! q = Some n →
     (∀ k, label_key label = Some k → k ∈ node_labels n) →
     run (ensure_node q label) s = s) ∧
  (∀ row before between after s,
     ingest (before ++ row :: between ++ row :: after) s =
     ingest (before ++ row :: between ++ after) s) ∧
  (∀ files s, ingest_files files s = ingest (concat (map file_rows files)) s) ∧
  (∀ rows,
     let s := ingest rows KGBuilder_init in
     (∀ q n, nodes s !! q = Some n → node_id n = q) ∧
     ∃ ks, Forall2 (λ e k, stored_key e = Ret k) (edges s) ks ∧ NoDup ks ∧
           edge_seen s = list_to_set ks) ∧
  (∀ q label s, q ∈ dom (nodes (run (ensure_node q label) s))) ∧
  (∀ src dst pid prop_label key s,
     make_key src dst pid prop_label = Ret key → key ∉ edge_seen s →
     edges (run (add_edge src dst pid prop_label) s) =
       edges s ++ [Edge src dst pid prop_label] ∧
     key ∈ edge_seen (run (add_edge src dst pid prop_label) s)) ∧
  (∀ row q s, row_subj row = Ret (Some q) →
     q ∈ dom (nodes (run (process_row row) s))) ∧
  (∀ row q label pid pl o ol key s,
     row_subj row = Ret (Some q) → row_subj_label row = Ret label →
     ensure_raises label = false →
     row_pid row = Ret pid → row_prop_label row pid = Ret pl →
     row_obj row = Ret (Some o) → row_obj_label row = Ret ol →
     ensure_raises ol = false →
     make_key q o pid pl = Ret key →
     o ∈ dom (nodes (run (process_row row) s)) ∧
     key ∈ edge_seen (run (process_row row) s)) ∧
  (∀ rows,
     let s := ingest rows KGBuilder_init in
     (∀ q, q ∈ dom (nodes s) ↔
           ∃ row, row ∈ rows ∧ q ∈ dom (nodes (run (process_row row) KGBuilder_init))) ∧
     (∀ key, key ∈ edge_seen s ↔
             ∃ row, row ∈ rows ∧
                    key ∈ edge_seen (run (process_row row) KGBuilder_init)) ∧
     (∀ key, key ∈ edge_seen s →
        ∃ e, filter (λ e', stored_key e' = Ret key) (edges s) = [e] ∧
             source e = key.1.1.1 ∧ target e = key.1.1.2)).
Proof.
  split; [|split; [|split; [|split; [|split; [|split; [|split; [|split; [|split]]]]]]]].
  - intros src dst pid pl key s Hkey Hin. unfold add_edge. rewrite Hkey.
    by rewrite bool_decide_eq_true_2.
  - intros q label n s Hq Hk. rewrite ensure_node_run.
    apply (absorbed_apply (ANode q (label_key label))). simpl. eauto.
  - intros row before between after s.
    rewrite !ingest_app. simpl. rewrite !ingest_app. simpl. f_equal.
    apply process_row_again.
  - apply ingest_files_rows.
  - intros rows s. split.
    + apply ids_ok_ingest. intros q n Hq. simpl in Hq.
      by rewrite lookup_empty in Hq.
    + destruct (consistent_ingest rows KGBuilder_init consistent_init) as [ks []].
      by exists ks.
  - intros q label s. rewrite ensure_node_run, dom_add_label. set_solver.
  - intros src dst pid pl key s Hkey Hnew. rewrite add_edge_run, Hkey.
    unfold put_edge. rewrite bool_decide_eq_false_2 by done. simpl.
    split; [done|set_solver].
  - intros row q s Hq. rewrite process_row_run, dom_apply_all. right.
    destruct (row_subj_dict row _ Hq) as [items ->].
    destruct (row_subj_label_dict items) as [label Hl].
    exists (label_key label). unfold row_actions, after.
    rewrite Hq, Hl, (row_subj_truthy _ q Hq). by left.
  - intros row q label pid pl o ol key s Hq Hl Hrl Hpid Hpl Ho Hol Hro Hkey.
    assert (row_actions row =
              [ANode q (label_key label); ANode o (label_key ol);
               AEdge (Edge q o pid pl) key]) as Hact.
    { unfold row_actions, after.
      rewrite Hq, Hl, (row_subj_truthy _ q Hq). cbn [negb default from_option id].
      rewrite Hrl, Hpid, Hpl, Ho, Hol, (row_obj_truthy _ o Ho).
      cbn [negb default from_option id]. by rewrite Hro, Hkey. }
    rewrite process_row_run, dom_apply_all, seen_apply_all, Hact. split.
    + right. exists (label_key ol). by right; left.
    + right. exists (Edge q o pid pl). by right; right; left.
  - intros rows s. destruct (ingest_stores rows) as [Hn Hk].
    split; [exact Hn|]. split; [exact Hk|]. intros key Hin.
    destruct (consistent_ingest rows KGBuilder_init consistent_init) as [ks Hks].
    destruct (dedup_consistent_one_edge _ ks key Hks Hin) as [e He].
    exists e. split; [done|]. apply stored_key_ends.
    assert (e ∈ filter (λ e', stored_key e' = Ret key) (edges s)) as Hf.
    { fold s in He. rewrite He. by left. }
    by apply list_elem_of_filter in Hf as [Hf _].
Qed.

Lemma dedup_idempotence_witness :
  add_edge "Q1" "Q2" (Some "P31") (JStr "instance of")
    (run (process_row earth_row) KGBuilder_init) =
    (run (process_row earth_row) KGBuilder_init, Ret ()) ∧
  ingest ([mass_row] ++ earth_row :: [moon_row] ++ earth_row :: [mass_row]) KGBuilder_init =
  ingest ([mass_row] ++ earth_row :: [moon_row] ++ [mass_row]) KGBuilder_init ∧
  "Q1" ∈ dom (nodes (run (process_row earth_row) KGBuilder_init)) ∧
  "Q2" ∈ dom (nodes (run (process_row earth_row) KGBuilder_init)) ∧
  earth_key ∈ edge_seen (run (process_row earth_row) KGBuilder_init).
Proof.
  split; [|split; [|split]].
  - apply (proj1 dedup_idempotence "Q1" "Q2" (Some "P31") (JStr "instance of") earth_key).
    + vm_compute. reflexivity.
    + apply (bool_decide_unpack _). vm_compute. exact I.
  - apply (proj1 (proj2 (proj2 dedup_idempotence))).
  - apply (proj1 (proj2 (proj2 (proj2 (proj2 (proj2 (proj2 (proj2 dedup_idempotence)))))))
             earth_row "Q1" KGBuilder_init).
    vm_compute. reflexivity.
  - apply (proj1 (proj2 (proj2 (proj2 (proj2 (proj2 (proj2 (proj2 (proj2
             dedup_idempotence))))))))
             earth_row "Q1" (JStr "Earth") (Some "P31") (JStr "instance of") "Q2"
             (JStr "Planet") earth_key KGBuilder_init);
      vm_compute; reflexivity.
Defined.



(** ** Sorting labels *)

Lemma string_compare_refl s : String.compare s s = Eq.
Proof.
  destruct (String.compare s s) eqn:E; [done|..];
    pose proof (String.compare_antisym s s) as H; rewrite E in H; done.
Qed.

Lemma string_ltb_le s t : String.ltb s t = true ↔ String.le s t ∧ s ≠ t.
Proof.
  unfold String.le, String.ltb, String.leb.
  destruct (String.compare s t) eqn:E; simpl.
  - apply String.compare_eq_iff in E. naive_solver.
  - split; [|done]. intros _. split; [done|]. intros ->.
    rewrite string_compare_refl in E. done.
  - naive_solver.
Qed.

Lemma string_ltb_trans s t u :
  String.ltb s t = true → String.ltb t u = true → String.ltb s u = true.
Proof.
  rewrite !string_ltb_le. intros [H1 Hne1] [H2 Hne2]. split.
  - by trans t.
  - intros ->. apply Hne1. by apply (anti_symm String.le).
Qed.

Lemma string_ltb_total s t :
  String.ltb s t = false → s ≠ t → String.ltb t s = true.
Proof.
  unfold String.ltb. rewrite (String.compare_antisym t s).
  destruct (String.compare s t) eqn:E; simpl; try done.
  apply String.compare_eq_iff in E. by intros _ [].
Qed.

Lemma num_lt_trans x y z : num_lt x y = true → num_lt y z = true → num_lt x z = true.
Proof.
  destruct x as [p|[]|], y as [q|[]|], z as [r|[]|]; simpl; try done.
  intros H1%bool_decide_eq_true H2%bool_decide_eq_true.
  apply bool_decide_eq_true. by eapply Qclt_trans.
Qed.

Lemma num_lt_total x y :
  num_lt x y = false → x ≠ y → x ≠ NaN → y ≠ NaN → num_lt y x = true.
Proof.
  destruct x as [p|[]|], y as [q|[]|]; simpl; try done.
  intros H%bool_decide_eq_false Hne _ _. apply bool_decide_eq_true.
  destruct (Qcle_lt_or_eq q p) as [?| ->]; [by apply Qcnot_lt_le|done|done].
Qed.

Lemma hval_lt_trans a b c : hval_lt a b → hval_lt b c → hval_lt a c.
Proof.
  unfold hval_lt. destruct a as [|s|x], b as [|t|y], c as [|u|z]; simpl; try done.
  - intros [= H1] [= H2]. by rewrite (string_ltb_trans s t u).
  - intros [= H1] [= H2]. by rewrite (num_lt_trans x y z).
Qed.

Lemma hval_lt_total a b :
  py_lt a b = Ret false → a ≠ b → is_nan a = false → is_nan b = false → hval_lt b a.
Proof.
  unfold hval_lt. destruct a as [|s|x], b as [|t|y]; simpl; try done.
  - intros [= H] Hne _ _. rewrite (string_ltb_total s t); [done..|]. congruence.
  - intros [= H] Hne Hx Hy. rewrite (num_lt_total x y); [done..| | |].
    + congruence.
    + by intros ->.
    + by intros ->.
Qed.

Lemma insert_sorted_perm x l l' : insert_sorted x l = Ret l' → l' ≡ₚ x :: l.
Proof.
  revert l'. induction l as [|y l IH]; intros l'; simpl.
  - by intros [= <-].
  - destruct (py_lt x y) as [[]|]; simpl; [by intros [= <-]| |done].
    destruct (insert_sorted x l) as [r|]; simpl; [|done].
    intros [= <-]. rewrite (IH r eq_refl). apply perm_swap.
Qed.

Lemma sort_into_perm acc l l' : sort_into acc l = Ret l' → l' ≡ₚ acc ++ l.
Proof.
  revert acc l'. induction l as [|x l IH]; intros acc l'; simpl.
  - intros [= <-]. by rewrite app_nil_r.
  - destruct (insert_sorted x acc) as [acc'|] eqn:Hins; simpl; [|done].
    intros ->%IH. rewrite (insert_sorted_perm _ _ _ Hins). simpl.
    apply Permutation_middle.
Qed.

Lemma insert_sorted_spec x l l' :
  insert_sorted x l = Ret l' → x ∉ l →
  is_nan x = false → Forall (λ y, is_nan y = false) l →
  StronglySorted hval_lt l → StronglySorted hval_lt l'.
Proof.
  revert l'. induction l as [|y l IH]; intros l'; simpl.
  - intros [= <-] _ _ _ _. repeat constructor.
  - destruct (py_lt x y) as [[]|] eqn:Hxy; simpl; [| |done].
    + intros [= <-] _ _ _ Hs.
      apply StronglySorted_cons. split; [|done].
      apply StronglySorted_cons in Hs as [Hy _].
      constructor; [done|].
      eapply Forall_impl; [exact Hy|]. intros z. by apply hval_lt_trans.
    + destruct (insert_sorted x l) as [r|] eqn:Hr; simpl; [|done].
      intros [= <-] Hx Hnx [Hny Hnl]%Forall_cons [Hy Hs]%StronglySorted_cons.
      apply not_elem_of_cons in Hx as [Hne Hx].
      apply StronglySorted_cons. split; [|by apply IH].
      rewrite (insert_sorted_perm _ _ _ Hr). constructor; [|done].
      by apply hval_lt_total.
Qed.

Lemma sort_into_spec acc l l' :
  NoDup (acc ++ l) → Forall (λ y, is_nan y = false) (acc ++ l) →
  StronglySorted hval_lt acc → sort_into acc l = Ret l' →
  StronglySorted hval_lt l'.
Proof.
  revert acc l'. induction l as [|x l IH]; intros acc l'; simpl.
  - by intros _ _ Hs [= <-].
  - intros Hnd Hnan Hs.
    destruct (insert_sorted x acc) as [acc'|] eqn:Hins; simpl; [|done].
    apply NoDup_app in Hnd as (Hacc & Hdisj & [Hx Hl]%NoDup_cons).
    apply Forall_app in Hnan as [Hnacc [Hnx Hnl]%Forall_cons].
    pose proof (insert_sorted_perm _ _ _ Hins) as Hperm.
    apply IH.
    + rewrite Hperm. apply NoDup_app. split; [|split; [|done]].
      * apply NoDup_cons. split; [|done]. intros Hin. apply (Hdisj x Hin). by left.
      * intros y [->|Hy]%elem_of_cons; [done|].
        intros Hyl. apply (Hdisj y Hy). by right.
    + rewrite Hperm. apply Forall_app. split; [by constructor|done].
    + eapply insert_sorted_spec; try done. intros Hin. apply (Hdisj x Hin). by left.
Qed.

Lemma unordered_false l :
  unordered l = false ↔ Forall (λ y, is_nan y = false) l ∨ length l ≤ 1.
Proof.
  unfold unordered. rewrite andb_false_iff, Nat.ltb_ge. split.
  - intros [H|H]; [left|by right]. apply Forall_forall. intros y Hy.
    destruct (is_nan y) eqn:E; [|done].
    assert (existsb is_nan l = true) as H'; [|congruence].
    apply existsb_exists. exists y. split; [by apply list_elem_of_In|done].
  - intros [H|H]; [left|by right].
    destruct (existsb is_nan l) eqn:E; [|done].
    apply existsb_exists in E as (y & Hy%list_elem_of_In & E).
    eapply Forall_forall in H; [|exact Hy]. congruence.
Qed.

(** What [sorted] returns holds the items it was given; where [<] orders
    them it is the list in which they increase. *)
Lemma py_sorted_spec c q l l' :
  NoDup l → py_sorted (arrange c q) l = Ret l' →
  l' ≡ₚ l ∧ (unordered l = false → StronglySorted hval_lt l').
Proof.
  intros Hl. unfold py_sorted.
  destruct (sort_into [] l) as [r|] eqn:Hr; simpl; [|done]. intros [= <-].
  pose proof (sort_into_perm _ _ _ Hr) as Hperm. simpl in Hperm.
  destruct (unordered l) eqn:Hu.
  - split; [apply arrange_perm|done].
  - split; [done|]. intros _. apply unordered_false in Hu as [Hnan|Hlen].
    + by apply (sort_into_spec [] l r); [..|constructor|].
    + destruct l as [|x [|y l]]; simpl in *; [| |lia].
      * injection Hr as <-. constructor.
      * injection Hr as <-. repeat constructor.
Qed.

(** Whether [sorted] raises is the same in every run. *)
Lemma py_sorted_is_ret arr l : is_ret (py_sorted arr l) = is_ret (sort_into [] l).
Proof. unfold py_sorted. by destruct (sort_into [] l). Qed.


Lemma insert_sorted_strings x l :
  is_hstr x → Forall is_hstr l →
  ∃ l', insert_sorted x l = Ret l' ∧ Forall is_hstr l'.
Proof.
  intros Hx. induction 1 as [|y l Hy Hl (r & IH & Hr)]; simpl.
  - eexists. split; [done|]. by repeat constructor.
  - destruct Hx as [s ->], Hy as [t ->]. simpl.
    destruct (String.ltb s t); simpl.
    + eexists. split; [done|]. repeat constructor; [by exists s|by exists t|done].
    + rewrite IH. simpl. eexists. split; [done|]. constructor; [by exists t|done].
Qed.

Lemma sort_into_strings acc l :
  Forall is_hstr acc → Forall is_hstr l →
  ∃ l', sort_into acc l = Ret l' ∧ Forall is_hstr l'.
Proof.
  intros Hacc Hl. revert acc Hacc.
  induction Hl as [|x l Hx Hl IH]; intros acc Hacc; simpl; [eauto|].
  destruct (insert_sorted_strings x acc Hx Hacc) as (acc' & -> & Hacc'). simpl.
  by apply IH.
Qed.


(** ** Normalization *)

Lemma ordered_labels_elements X : ordered_labels X ↔ unordered (elements X) = false.
Proof.
  rewrite unordered_false. split.
  - intros HX. destruct (decide (HNum NaN ∈ X)) as [Hin|Hin].
    + right. rewrite (HX Hin), elements_singleton. done.
    + left. apply Forall_forall. intros y Hy%elem_of_elements.
      destruct y as [| |[]]; try done.
  - intros [Hall|Hlen] Hin.
    + apply elem_of_elements in Hin.
      by eapply Forall_forall in Hall; [|exact Hin].
    + apply set_eq. intros y. rewrite elem_of_singleton. split; [|by intros ->].
      intros Hy. apply elem_of_elements in Hin, Hy.
      destruct (elements X) as [|z [|z' l]]; simpl in Hlen; [| |lia].
      * by apply elem_of_nil in Hin.
      * apply list_elem_of_singleton in Hin, Hy. congruence.
Qed.


Lemma normalize_node_spec c q n m :
  normalize_node c q n = Ret m →
  norm_id m = q ∧
  norm_labels m ≡ₚ elements (node_labels n) ∧
  (ordered_labels (node_labels n) → StronglySorted hval_lt (norm_labels m)) ∧
  (node_labels n = ∅ → norm_label m = HStr "") ∧
  (node_labels n ≠ ∅ → head (norm_labels m) = Some (norm_label m)).
Proof.
  unfold normalize_node.
  destruct (py_sorted (arrange c q) (elements (node_labels n))) as [l|] eqn:Hl; simpl.
  - destruct (py_sorted_spec _ _ _ _ (NoDup_elements _) Hl) as [Hperm Hs].
    case_bool_decide as Hne; simpl.
    + destruct l as [|x l]; simpl; [done|]. intros [= <-]. simpl.
      repeat split; try done. by intros ?%ordered_labels_elements%Hs.
    + intros [= <-]. simpl. repeat split; try done.
      by intros ?%ordered_labels_elements%Hs.
  - case_bool_decide; simpl; done.
Qed.

Lemma normalize_node_labels c q n m :
  normalize_node c q n = Ret m →
  (∀ x, x ∈ norm_labels m ↔ x ∈ node_labels n) ∧
  NoDup (norm_labels m) ∧
  (node_labels n ≠ ∅ → norm_label m ∈ node_labels n) ∧
  (ordered_labels (node_labels n) → node_labels n ≠ ∅ →
     ∀ x, x ∈ node_labels n → x = norm_label m ∨ hval_lt (norm_label m) x).
Proof.
  intros (_ & Hperm & Hs & _ & Hhd)%normalize_node_spec.
  assert (∀ x, x ∈ norm_labels m ↔ x ∈ node_labels n) as Hin.
  { intros x. by rewrite Hperm, elem_of_elements. }
  split; [done|]. split; [rewrite Hperm; apply NoDup_elements|]. split.
  - intros Hne. specialize (Hhd Hne).
    destruct (norm_labels m) as [|y l] eqn:E; simplify_eq/=.
    apply Hin. by left.
  - intros Hord Hne. specialize (Hhd Hne). specialize (Hs Hord).
    destruct (norm_labels m) as [|y l] eqn:E; simplify_eq/=.
    intros x [->|Hx]%Hin%elem_of_cons; [by left|right].
    apply StronglySorted_cons in Hs as [Hy _].
    by eapply Forall_forall in Hy.
Qed.

Lemma normalize_node_is_ret c q n :
  is_ret (normalize_node c q n) = is_ret (sort_into [] (elements (node_labels n))).
Proof.
  unfold normalize_node, py_sorted.
  destruct (sort_into [] (elements (node_labels n))) as [l|] eqn:Hl; simpl.
  - case_bool_decide as Hne; simpl; [|done].
    pose proof (sort_into_perm _ _ _ Hl) as Hperm. simpl in Hperm.
    destruct (unordered (elements (node_labels n))).
    + pose proof (arrange_perm c q (elements (node_labels n))) as Hp.
      destruct (arrange c q (elements (node_labels n))) as [|x r]; simpl; [|done].
      apply Permutation_nil_l in Hp. symmetry in Hp.
      apply elements_empty_inv in Hp. destruct Hne. by apply leibniz_equiv.
    + destruct l as [|x l]; simpl; [|done].
      symmetry in Hperm. apply Permutation_nil_r, elements_empty_inv in Hperm.
      destruct Hne. by apply leibniz_equiv.
  - case_bool_decide as Hne; simpl; [done|].
    rewrite Hne, elements_empty in Hl. done.
Qed.



Lemma normalize_lookup c ns ns' q :
  normalize c ns = Ret ns' →
  match ns !! q with
  | None => ns' !! q = None
  | Some n => ∃ m, ns' !! q = Some m ∧ normalize_node c q n = Ret m
  end.
Proof.
  unfold normalize. case_bool_decide as Hall; [|done]. intros [= <-].
  rewrite map_lookup_imap. destruct (ns !! q) as [n|] eqn:Hq; simpl; [|done].
  specialize (Hall q n Hq). simpl in Hall.
  destruct (normalize_node c q n) as [m|]; [|done]. by exists m.
Qed.




Lemma text_cells_dict items :
  Forall (λ kv : string * json, ∃ t, get_value kv.2 = JStr t) items →
  text_cells (JDict items).
Proof.
  intros Hitems k v. rewrite value_at_dict. intros [= <-]. unfold dict_get.
  induction Hitems as [|[k' c] items Hc _ IH]; simpl; [by exists ""|].
  destruct (String.eqb k' k); [exact Hc|exact IH].
Qed.















(** ** Order of ingestion, after the normalization *)




(** ** Value extractor and file loader, case by case *)

(** [get_value] gives a string for a null cell, for a bare cell of any other
    kind but a dict, and for a dict with no value field or with text in it. *)
Lemma get_value_text x :
  match x with
  | JDict items =>
      match dict_lookup items "value" with
      | None => get_value x = JStr ""
      | Some v => get_value x = v
      end
  | JNull => get_value x = JStr ""
  | _ => get_value x = JStr (py_str x)
  end.
Proof.
  destruct x as [| | | | | |items]; try done.
  simpl. unfold dict_get. by destruct (dict_lookup items "value").
Qed.

Lemma get_value_wrapped_text items t :
  dict_lookup items "value" = Some (JStr t) → get_value (JDict items) = JStr t.
Proof. intros H. simpl. unfold dict_get. by rewrite H. Qed.

Example get_value_primitives :
  get_value (JStr "abc") = JStr "abc" ∧
  get_value (JInt 42) = JStr "42" ∧
  get_value (JInt (-7)) = JStr "-7" ∧
  get_value (JBool true) = JStr "True" ∧
  get_value (JFloat (Q2Qc (3 # 2)) "1.5") = JStr "1.5" ∧
  get_value JNull = JStr "" ∧
  get_value (literal "Earth") = JStr "Earth" ∧
  get_value (JDict [("type", JStr "bnode")]) = JStr "".
Proof. repeat split; reflexivity. Qed.

(** A wrapped cell yields whatever its value field holds. *)
Lemma get_value_wrapped items v :
  dict_lookup items "value" = Some v → get_value (JDict items) = v.
Proof. intros H. simpl. unfold dict_get. by rewrite H. Qed.

(** C6, at the failing input: for the wrapped cell [{value: 5}], [get_value]
    hands back the integer 5 and no string, so [extract_qid] and
    [extract_pid] raise [TypeError] on that cell. *)
Theorem get_value_wrapped_non_text :
  get_value (JDict [("value", JInt 5)]) = JInt 5 ∧
  (∀ t, get_value (JDict [("value", JInt 5)]) ≠ JStr t) ∧
  extract_qid (JDict [("value", JInt 5)]) = Raise TypeError ∧
  extract_pid (JDict [("value", JInt 5)]) = Raise TypeError.
Proof. by repeat split. Qed.

(** What a value field that is not text leads to: as an id cell it makes
    the row raise, and as a label cell it puts a number among the labels of
    the node, on which the [sorted] of the normalization raises once a
    string is there too, which ends [build]. *)
Example non_text_value_field c :
  process_row (JDict [("item", JDict [("value", JInt 5)])]) KGBuilder_init =
    (KGBuilder_init, Raise TypeError) ∧
  build c [Some (JList [five_row; earth_row])] KGBuilder_init = Raise TypeError.
Proof. split; vm_compute; reflexivity. Qed.

(** The three shapes [load_json_any] accepts. *)
Lemma load_json_doc_shapes raw :
  match raw with
  | JDict items =>
      match dict_lookup items "results" with
      | None => load_json_doc raw = Ret [raw]
      | Some (JDict results) =>
          match dict_lookup results "bindings" with
          | Some (JList rows) => load_json_doc raw = Ret rows
          | _ => load_json_doc raw = Ret [raw]
          end
      | Some _ => load_json_doc raw = Raise AttributeError
      end
  | JList rows => load_json_doc raw = Ret rows
  | _ => load_json_doc raw = Ret [raw]
  end.
Proof.
  destruct raw as [| | | | | |items]; try done.
  simpl. unfold dict_get.
  destruct (dict_lookup items "results") as [[| | | | | |results]|]; try done.
  simpl. unfold dict_get.
  by destruct (dict_lookup results "bindings") as [[]|].
Qed.

(** A dict whose results entry is not a dict makes the loader raise. *)
Lemma load_json_doc_results_not_dict items r :
  dict_lookup items "results" = Some r →
  (∀ results, r ≠ JDict results) →
  load_json_doc (JDict items) = Raise AttributeError.
Proof.
  intros Hr Hnot.
  pose proof (load_json_doc_shapes (JDict items)) as H. simpl in H.
  rewrite Hr in H. destruct r as [| | | | | |results]; try done.
  by destruct (Hnot results).
Qed.

(** C7, at the failing input: the document [{results: null}] is neither a
    list nor a results wrapper, and [load_json_any] raises on it instead of
    returning the one-row list, so [build] takes no row from the file. *)
Theorem load_json_any_results_not_dict :
  load_json_any (Some (JDict [("results", JNull)])) = Raise AttributeError ∧
  file_rows (Some (JDict [("results", JNull)])) = [] ∧
  ingest_files [Some (JDict [("results", JNull)])] KGBuilder_init = KGBuilder_init.
Proof. by repeat split. Qed.

(** ** Sanitizer *)

(** Induction on a JSON value, with the hypothesis for the items of a list
    and for the values of a dict. *)
Section json_induction.
Variable P : json → Prop.
Hypothesis Hnull : P JNull.
Hypothesis Hbool : ∀ b, P (JBool b).
Hypothesis Hint : ∀ z, P (JInt z).
Hypothesis Hfloat : ∀ q r, P (JFloat q r).
Hypothesis Hstr : ∀ s, P (JStr s).
Hypothesis Hlist : ∀ l, Forall P l → P (JList l).
Hypothesis Hdict : ∀ l, Forall (λ kv : string * json, P kv.2) l → P (JDict l).

Lemma json_induction (x : json) : P x.
Proof.
  revert x. fix IH 1. intros [|b|z|q r|s|l|l].
  - exact Hnull.
  - apply Hbool.
  - apply Hint.
  - apply Hfloat.
  - apply Hstr.
  - apply Hlist. induction l as [|y l IHl]; constructor; [apply IH|exact IHl].
  - apply Hdict. induction l as [|[k y] l IHl]; constructor; [apply IH|exact IHl].
Qed.

End json_induction.

Lemma no_ws_app s t : no_ws (s +:+ t) = no_ws s && no_ws t.
Proof.
  induction s as [|c s IH]; [done|].
  change (String c s +:+ t) with (String c (s +:+ t)). simpl.
  by rewrite IH, andb_assoc.
Qed.

Lemma no_ws_join sep l :
  no_ws sep = true → Forall (λ s, no_ws s = true) l → no_ws (join sep l) = true.
Proof.
  intros Hsep. induction 1 as [|s l Hs Hl IH]; [done|].
  destruct l as [|t l]; [done|].
  change (join sep (s :: t :: l)) with (s +:+ sep +:+ join sep (t :: l)).
  by rewrite !no_ws_app, Hs, Hsep, IH.
Qed.

Lemma json_escape_char_no_ws c :
  nat_of_ascii c ≠ 32 → no_ws (json_escape_char c) = true.
Proof.
  destruct c as [[] [] [] [] [] [] [] []]; vm_compute; done.
Qed.

(** A character from 128 up, that is every byte of a non-ASCII character,
    is written as it is. *)
Lemma json_escape_char_non_ascii c :
  128 ≤ nat_of_ascii c → json_escape_char c = String c "".
Proof.
  destruct c as [[] [] [] [] [] [] [] []]; vm_compute; try done; lia.
Qed.

Lemma no_ws_concat_escape s :
  no_space s = true → no_ws (string_concat_map json_escape_char s) = true.
Proof.
  induction s as [|c s IH]; [done|]. simpl.
  intros [Hc Hs]%andb_true_iff. rewrite no_ws_app, IH by done.
  rewrite json_escape_char_no_ws; [done|].
  by apply Nat.eqb_neq, negb_true_iff.
Qed.

Lemma no_ws_json_string s : no_space s = true → no_ws (json_string s) = true.
Proof.
  intros Hs. unfold json_string.
  change (String dquote ?x +:+ ?y) with (String dquote (x +:+ y)).
  simpl. by rewrite no_ws_app, no_ws_concat_escape.
Qed.

Lemma no_ws_pretty_N_go x s : no_ws s = true → no_ws (pretty_N_go x s) = true.
Proof.
  revert s. induction (N.lt_wf_0 x) as [x _ IH]; intros s Hs.
  destruct (decide (0 < x)%N) as [Hx|Hx].
  - rewrite pretty_N_go_step by done. apply IH; [by apply N.div_lt|].
    simpl. rewrite Hs, andb_true_r.
    unfold pretty_N_char. by repeat case_match.
  - assert (x = 0%N) as -> by lia. by rewrite pretty_N_go_0.
Qed.

Lemma no_ws_pretty_Z (z : Z) : no_ws (pretty z) = true.
Proof.
  assert (∀ p : positive, no_ws (pretty p) = true) as Hpos.
  { intros p. unfold pretty, pretty_positive, pretty, pretty_N.
    case_decide; [done|]. by apply no_ws_pretty_N_go. }
  destruct z as [|p|p]; [done|apply Hpos|].
  change (pretty (Z.neg p)) with ("-" +:+ pretty p).
  by rewrite no_ws_app, Hpos.
Qed.

(** The compact text holds no blank unless a string of the value holds a
    space: nothing is put around the separators. *)
Lemma json_dumps_no_ws x : spaceless x = true → no_ws (json_dumps x) = true.
Proof.
  induction x as [|b|z|q r|s|l IH|l IH] using json_induction; simpl.
  - done.
  - by destruct b.
  - intros _. apply no_ws_pretty_Z.
  - by destruct q as [?|[]|].
  - apply no_ws_json_string.
  - intros Hl. rewrite !no_ws_app. simpl. rewrite andb_true_r.
    apply no_ws_join; [done|]. apply Forall_fmap.
    induction IH as [|y l Hy _ IHl]; [constructor|].
    simpl in Hl. apply andb_true_iff in Hl as [H1 H2].
    constructor; [by apply Hy|by apply IHl].
  - intros Hl. rewrite !no_ws_app. simpl. rewrite andb_true_r.
    apply no_ws_join; [done|]. apply Forall_fmap.
    induction IH as [|[k y] l Hy _ IHl]; [constructor|].
    simpl in Hl. apply andb_true_iff in Hl as [[H0 H1]%andb_true_iff H2].
    constructor; [|by apply IHl].
    unfold compose. cbn [fst snd] in *.
    rewrite !no_ws_app, no_ws_json_string by done. rewrite (Hy H1). done.
Qed.

Example json_dumps_compact :
  json_dumps (JDict [("label", JStr "Earth"); ("labels", JList [JStr "Earth"; JStr "Tierra"]);
                     ("n", JInt 2); ("ok", JBool true); ("none", JNull)]) =
  String "{"
    (json_string "label" +:+ ":" +:+ json_string "Earth" +:+ "," +:+
     json_string "labels" +:+ ":[" +:+ json_string "Earth" +:+ "," +:+
       json_string "Tierra" +:+ "]," +:+
     json_string "n" +:+ ":2," +:+ json_string "ok" +:+ ":true," +:+
     json_string "none" +:+ ":null}").
Proof. vm_compute. reflexivity. Qed.

(** C9. [sanitize_scalar] maps null to the empty string, hands back a
    string, an integer, a float or a boolean as it is, maps a list or a
    dict to its compact JSON text, and maps a value that [json.dumps]
    refuses to the text [str] gives for it; the compact text joins items by
    a comma and keys to values by a colon with no blank added, and writes
    the bytes of non-ASCII characters as they are. *)
Theorem sanitize_scalar_spec :
  sanitize_scalar (PJson JNull) = PJson (JStr "") ∧
  (∀ s, sanitize_scalar (PJson (JStr s)) = PJson (JStr s)) ∧
  (∀ z, sanitize_scalar (PJson (JInt z)) = PJson (JInt z)) ∧
  (∀ q r, sanitize_scalar (PJson (JFloat q r)) = PJson (JFloat q r)) ∧
  (∀ b, sanitize_scalar (PJson (JBool b)) = PJson (JBool b)) ∧
  (∀ l, sanitize_scalar (PJson (JList l)) =
          PJson (JStr ("[" +:+ join "," (map json_dumps l) +:+ "]"))) ∧
  (∀ l, sanitize_scalar (PJson (JDict l)) =
          PJson (JStr ("{" +:+
            join "," (map (λ kv, json_string kv.1 +:+ ":" +:+ json_dumps kv.2) l) +:+
            "}"))) ∧
  (∀ v e, dumps v = Raise e → sanitize_scalar v = PJson (JStr (str_of v))) ∧
  (∀ text, sanitize_scalar (PObject text) = PJson (JStr text)) ∧
  (∀ x, spaceless x = true → no_ws (json_dumps x) = true) ∧
  (∀ c, 128 ≤ nat_of_ascii c → json_escape_char c = String c "").
Proof.
  repeat split; try done.
  - intros [j|text] e; [done|]. done.
  - apply json_dumps_no_ws.
  - apply json_escape_char_non_ascii.
Qed.

Lemma sanitize_scalar_spec_witness :
  sanitize_scalar (PObject "{'Earth', 'Tierra'}") = PJson (JStr "{'Earth', 'Tierra'}") ∧
  no_ws (json_dumps (JList [JStr "Earth"; JInt 3; JNull])) = true.
Proof.
  split.
  - apply (proj1 (proj2 (proj2 (proj2 (proj2 (proj2 (proj2 (proj2 sanitize_scalar_spec)))))))
             (PObject "{'Earth', 'Tierra'}") TypeError).
    reflexivity.
  - apply (proj1 (proj2 (proj2 (proj2 (proj2 (proj2 (proj2 (proj2 (proj2 (proj2
             sanitize_scalar_spec)))))))))).
    reflexivity.
Defined.

(** ** The two patterns *)

Lemma app_cons c s t : String c s +:+ t = String c (s +:+ t).
Proof. done. Qed.

Lemma app_nil_l_s s : "" +:+ s = s.
Proof. done. Qed.

Lemma app_nil_r_s s : s +:+ "" = s.
Proof. induction s as [|c s IH]; [done|]. by rewrite app_cons, IH. Qed.

Lemma app_assoc_s s t u : (s +:+ t) +:+ u = s +:+ (t +:+ u).
Proof. induction s as [|c s IH]; [done|]. by rewrite !app_cons, IH. Qed.

Lemma string_has_app c s t : string_has c (s +:+ t) = string_has c s || string_has c t.
Proof.
  induction s as [|c' s IH]; [done|].
  rewrite app_cons. simpl. by rewrite IH, orb_assoc.
Qed.

Lemma strip_prefix_spec p s r : strip_prefix p s = Some r ↔ s = p +:+ r.
Proof.
  revert s. induction p as [|a p IH]; intros s; simpl.
  - rewrite app_nil_l_s. naive_solver.
  - destruct s as [|b s]; [by rewrite app_cons|]. rewrite app_cons.
    destruct (Ascii.eqb_spec a b) as [->|Hne].
    + rewrite IH. naive_solver.
    + naive_solver.
Qed.

(** The bytes of one character *)

Lemma two_lead a b : two a b = true → (194 ≤ byte a < 224)%N ∧ is_cont b = true.
Proof.
  unfold two. rewrite !andb_true_iff, N.leb_le, N.ltb_lt. tauto.
Qed.

Lemma three_lead a b c : three a b c = true → (224 ≤ byte a < 240)%N ∧ is_cont b = true ∧ is_cont c = true.
Proof.
  unfold three. rewrite !andb_true_iff, N.leb_le, N.ltb_lt. tauto.
Qed.

Lemma four_lead a b c d :
  four a b c d = true →
  (240 ≤ byte a)%N ∧ is_cont b = true ∧ is_cont c = true ∧ is_cont d = true.
Proof.
  unfold four. rewrite !andb_true_iff, N.leb_le. tauto.
Qed.

Lemma is_cont_high b : is_cont b = true → (128 ≤ byte b)%N.
Proof. unfold is_cont. rewrite andb_true_iff, N.leb_le. tauto. Qed.

Lemma is_decimal_byte a : is_decimal (byte a) = is_digit a.
Proof. destruct a as [[] [] [] [] [] [] [] []]; vm_compute; reflexivity. Qed.

Lemma is_digit_low a : is_digit a = true → (byte a < 128)%N.
Proof. destruct a as [[] [] [] [] [] [] [] []]; vm_compute; done. Qed.

Lemma head_char_low a t : (byte a < 194)%N → head_char (String a t) = (byte a, 1).
Proof.
  intros Ha. unfold head_char. destruct t as [|b [|c [|d t]]]; try done.
  - destruct (two a b) eqn:E; [apply two_lead in E; lia|done].
  - destruct (two a b) eqn:E; [apply two_lead in E; lia|].
    destruct (three a b c) eqn:E3; [apply three_lead in E3; lia|done].
  - destruct (two a b) eqn:E; [apply two_lead in E; lia|].
    destruct (three a b c) eqn:E3; [apply three_lead in E3; lia|].
    destruct (four a b c d) eqn:E4; [apply four_lead in E4; lia|done].
Qed.

Lemma head_char_two a b t :
  two a b = true → head_char (String a (String b t)) = (code2 a b, 2).
Proof. intros E. unfold head_char. by rewrite E. Qed.

Lemma head_char_three a b c t :
  three a b c = true → head_char (String a (String b (String c t))) = (code3 a b c, 3).
Proof.
  intros E. unfold head_char.
  destruct (two a b) eqn:E2; [apply two_lead in E2; apply three_lead in E; lia|].
  by rewrite E.
Qed.

Lemma head_char_four a b c d t :
  four a b c d = true →
  head_char (String a (String b (String c (String d t)))) = (code4 a b c d, 4).
Proof.
  intros E. unfold head_char.
  destruct (two a b) eqn:E2; [apply two_lead in E2; apply four_lead in E; lia|].
  destruct (three a b c) eqn:E3; [apply three_lead in E3; apply four_lead in E; lia|].
  by rewrite E.
Qed.

(** What a digit at the front of a text is made of. *)
Lemma digit_len_chunk d t :
  digit_chunk d = true → d ≠ "" ∧ digit_len (d +:+ t) = String.length d.
Proof.
  unfold digit_chunk, digit_len.
  destruct d as [|a [|b [|c [|x [|y d]]]]]; try done; rewrite ?app_cons, ?app_nil_l_s.
  - intros Ha. split; [done|]. rewrite head_char_low by (apply is_digit_low in Ha; lia).
    by rewrite is_decimal_byte, Ha.
  - intros [E Hd]%andb_true_iff. split; [done|]. by rewrite head_char_two, Hd.
  - intros [E Hd]%andb_true_iff. split; [done|]. by rewrite head_char_three, Hd.
  - intros [E Hd]%andb_true_iff. split; [done|]. by rewrite head_char_four, Hd.
Qed.

Lemma digit_len_inv s :
  digit_len s = 0 ∨
  ∃ d t, s = d +:+ t ∧ digit_chunk d = true ∧ digit_len s = String.length d.
Proof.
  assert (∀ a t, digit_len (String a t) = (if is_digit a then 1 else 0) →
            digit_len (String a t) = 0 ∨
            ∃ d t', String a t = d +:+ t' ∧ digit_chunk d = true ∧
                    digit_len (String a t) = String.length d) as Hone.
  { intros a t ->. destruct (is_digit a) eqn:Ha; [right|by left].
    exists (String a ""), t. by rewrite app_cons, app_nil_l_s. }
  assert (∀ a t, head_char (String a t) = (byte a, 1) →
            digit_len (String a t) = (if is_digit a then 1 else 0)) as Hlow.
  { intros a t H. unfold digit_len. rewrite H, is_decimal_byte. done. }
  destruct s as [|a t]; [by left|].
  destruct t as [|b t]; [by apply Hone, Hlow|].
  destruct (two a b) eqn:E2.
  { unfold digit_len. rewrite head_char_two by done.
    destruct (is_decimal (code2 a b)) eqn:Hd; [right|by left].
    exists (String a (String b "")), t. rewrite !app_cons, app_nil_l_s.
    unfold digit_chunk. by rewrite E2, Hd. }
  destruct t as [|c t]; [apply Hone, Hlow; unfold head_char; by rewrite E2|].
  destruct (three a b c) eqn:E3.
  { unfold digit_len. rewrite head_char_three by done.
    destruct (is_decimal (code3 a b c)) eqn:Hd; [right|by left].
    exists (String a (String b (String c ""))), t. rewrite !app_cons, app_nil_l_s.
    unfold digit_chunk. by rewrite E3, Hd. }
  destruct t as [|d t]; [apply Hone, Hlow; unfold head_char; by rewrite E2, E3|].
  destruct (four a b c d) eqn:E4.
  { unfold digit_len. rewrite head_char_four by done.
    destruct (is_decimal (code4 a b c d)) eqn:Hd; [right|by left].
    exists (String a (String b (String c (String d "")))), t.
    rewrite !app_cons, app_nil_l_s. unfold digit_chunk. by rewrite E4, Hd. }
  apply Hone, Hlow. unfold head_char. by rewrite E2, E3, E4.
Qed.

Lemma length_app_s s t : String.length (s +:+ t) = String.length s + String.length t.
Proof. induction s as [|c s IH]; [done|]. rewrite app_cons. simpl. by rewrite IH. Qed.

(** Induction on a text, digit by digit from the front. *)
Lemma digits_ind (P : string → Prop) :
  (∀ s, digit_len s = 0 → P s) →
  (∀ d t, digit_chunk d = true → P t → P (d +:+ t)) →
  ∀ s, P s.
Proof.
  intros Hzero Hstep s.
  remember (String.length s) as n eqn:Hn. revert s Hn.
  induction (lt_wf n) as [n _ IH]. intros s ->.
  destruct (digit_len_inv s) as [H|(d & t & -> & Hd & _)]; [by apply Hzero|].
  apply Hstep; [done|]. eapply IH; [|done].
  rewrite length_app_s. destruct d; [done|simpl; lia].
Qed.

Lemma span_digits_unfold a s1 :
  span_digits (String a s1) =
    match digit_len (String a s1) with
    | 1 => let '(ds, tl) := span_digits s1 in (String a ds, tl)
    | 2 =>
        match s1 with
        | String b s2 => let '(ds, tl) := span_digits s2 in (String a (String b ds), tl)
        | _ => ("", String a s1)
        end
    | 3 =>
        match s1 with
        | String b (String c s3) =>
            let '(ds, tl) := span_digits s3 in (String a (String b (String c ds)), tl)
        | _ => ("", String a s1)
        end
    | 4 =>
        match s1 with
        | String b (String c (String d s4)) =>
            let '(ds, tl) := span_digits s4 in
            (String a (String b (String c (String d ds))), tl)
        | _ => ("", String a s1)
        end
    | _ => ("", String a s1)
    end.
Proof. done. Qed.

Lemma decimal_text_unfold a s1 :
  decimal_text (String a s1) =
    match digit_len (String a s1) with
    | 1 => decimal_text s1
    | 2 => match s1 with String _ s2 => decimal_text s2 | _ => false end
    | 3 => match s1 with String _ (String _ s3) => decimal_text s3 | _ => false end
    | 4 =>
        match s1 with
        | String _ (String _ (String _ s4)) => decimal_text s4
        | _ => false
        end
    | _ => false
    end.
Proof. done. Qed.

Lemma span_digits_zero s : digit_len s = 0 → span_digits s = ("", s).
Proof. destruct s as [|a s]; [done|]. intros H. by rewrite span_digits_unfold, H. Qed.

Lemma decimal_text_zero s : digit_len s = 0 → decimal_text s = true → s = "".
Proof. destruct s as [|a s]; [done|]. intros H. by rewrite decimal_text_unfold, H. Qed.

Lemma span_digits_chunk d t :
  digit_chunk d = true →
  span_digits (d +:+ t) = (d +:+ (span_digits t).1, (span_digits t).2).
Proof.
  intros Hd. destruct (digit_len_chunk d t Hd) as [_ Hlen].
  destruct d as [|a [|b [|c [|x [|y d]]]]]; try done;
    rewrite ?app_cons, ?app_nil_l_s in *; rewrite span_digits_unfold, Hlen;
    cbn [String.length]; by destruct (span_digits t).
Qed.

Lemma decimal_text_chunk d t :
  digit_chunk d = true → decimal_text (d +:+ t) = decimal_text t.
Proof.
  intros Hd. destruct (digit_len_chunk d t Hd) as [_ Hlen].
  destruct d as [|a [|b [|c [|x [|y d]]]]]; try done;
    rewrite ?app_cons, ?app_nil_l_s in *; by rewrite decimal_text_unfold, Hlen.
Qed.

Lemma all_digits_decimal ds : all_digits ds = true → decimal_text ds = true.
Proof.
  induction ds as [|a ds IH]; [done|]. intros Hall.
  cbn [all_digits] in Hall. apply andb_true_iff in Hall as [Ha Hds].
  pose proof (decimal_text_chunk (String a "") ds Ha) as H.
  rewrite app_cons, app_nil_l_s in H. rewrite H. by apply IH.
Qed.

Lemma span_digits_spec s ds tl :
  span_digits s = (ds, tl) →
  s = ds +:+ tl ∧ decimal_text ds = true ∧ digit_len tl = 0.
Proof.
  revert ds tl. induction s as [s Hs|d t Hd IH] using digits_ind; intros ds tl.
  - rewrite span_digits_zero by done. by intros [= <- <-].
  - rewrite span_digits_chunk by done.
    destruct (span_digits t) as [ds0 tl0]. simpl. intros [= <- <-].
    destruct (IH ds0 tl0 eq_refl) as (-> & Hds & Htl).
    by rewrite app_assoc_s, decimal_text_chunk.
Qed.

Lemma span_digits_app ds tl :
  decimal_text ds = true → digit_len tl = 0 → span_digits (ds +:+ tl) = (ds, tl).
Proof.
  intros Hds Htl. induction ds as [s Hs|d t Hd IH] using digits_ind.
  - rewrite (decimal_text_zero s Hs Hds), app_nil_l_s. by apply span_digits_zero.
  - rewrite decimal_text_chunk in Hds by done.
    by rewrite app_assoc_s, span_digits_chunk, IH.
Qed.

Lemma at_end_cases tl : at_end tl = true ↔ tl = "" ∨ tl = nl.
Proof.
  unfold at_end. rewrite orb_true_iff, !String.eqb_eq. done.
Qed.

Lemma at_end_no_digit tl : at_end tl = true → digit_len tl = 0.
Proof. intros [->| ->]%at_end_cases; done. Qed.

(** What a match of the pattern at the front of [s] says of [s]. *)
Lemma match_here_spec lit letter s g :
  match_here lit letter s = Some g ↔
  ∃ ds tl, s = lit +:+ String letter (ds +:+ tl) ∧ ds ≠ "" ∧
           decimal_text ds = true ∧ at_end tl = true ∧ g = String letter ds.
Proof.
  unfold match_here. split.
  - destruct (strip_prefix lit s) as [[|c rest]|] eqn:Hp; [done| |done].
    apply strip_prefix_spec in Hp as ->.
    destruct (Ascii.eqb_spec c letter) as [->|]; [|done].
    destruct (span_digits rest) as [ds tl] eqn:Hsp.
    destruct (span_digits_spec _ _ _ Hsp) as (-> & Hds & _).
    destruct (negb (String.eqb ds "")) eqn:Hne; [|done].
    destruct (at_end tl) eqn:Hend; [|done]. intros [= <-].
    exists ds, tl. repeat split; try done.
    by apply String.eqb_neq, negb_true_iff.
  - intros (ds & tl & -> & Hne & Hds & Hend & ->).
    rewrite (proj2 (strip_prefix_spec lit _ _) eq_refl).
    rewrite Ascii.eqb_refl.
    rewrite span_digits_app; [|done|by apply at_end_no_digit].
    rewrite Hend. apply String.eqb_neq in Hne. by rewrite Hne.
Qed.

Lemma re_search_sound lit letter s g :
  re_search lit letter s = Some g →
  ∃ pre ds tl, s = pre +:+ lit +:+ String letter (ds +:+ tl) ∧ ds ≠ "" ∧
               decimal_text ds = true ∧ at_end tl = true ∧ g = String letter ds.
Proof.
  induction s as [|c s IH]; simpl.
  - destruct (match_here lit letter "") eqn:E; [|done]. intros [= <-].
    apply match_here_spec in E as (ds & tl & H). exists "", ds, tl. by rewrite app_nil_l_s.
  - destruct (match_here lit letter (String c s)) eqn:E.
    + intros [= <-]. apply match_here_spec in E as (ds & tl & H).
      exists "", ds, tl. by rewrite app_nil_l_s.
    + intros (pre & ds & tl & -> & H)%IH. exists (String c pre), ds, tl.
      by rewrite app_cons.
Qed.

(** A letter is no byte of a digit. *)
Lemma letter_not_in_chunk a d :
  is_letter a = true → digit_chunk d = true → string_has a d = false.
Proof.
  unfold is_letter. intros [[Ha Hlow%N.ltb_lt]%andb_true_iff _]%andb_true_iff.
  apply negb_true_iff in Ha.
  assert (∀ x, (128 ≤ byte x)%N → Ascii.eqb a x = false) as Hhigh.
  { intros x Hx. apply Ascii.eqb_neq. intros ->. lia. }
  destruct d as [|x [|b [|c [|y [|z d]]]]]; try done; simpl.
  - intros Hx. rewrite orb_false_r. apply Ascii.eqb_neq. intros ->. congruence.
  - intros [[Hl Hb]%two_lead _]%andb_true_iff.
    rewrite !Hhigh; [done|by apply is_cont_high|lia].
  - intros [(Hl & Hb & Hc)%three_lead _]%andb_true_iff.
    rewrite !Hhigh; [done|by apply is_cont_high..|lia].
  - intros [(Hl & Hb & Hc & Hy)%four_lead _]%andb_true_iff.
    rewrite !Hhigh; [done|by apply is_cont_high..|lia].
Qed.

Lemma string_has_digits_end a ds tl :
  is_letter a = true → decimal_text ds = true → at_end tl = true →
  string_has a (ds +:+ tl) = false.
Proof.
  intros Ha Hds Htl. rewrite string_has_app. apply orb_false_iff. split.
  - induction ds as [s Hs|d t Hd IH] using digits_ind.
    + by rewrite (decimal_text_zero s Hs Hds).
    + rewrite decimal_text_chunk in Hds by done.
      by rewrite string_has_app, letter_not_in_chunk, IH.
  - apply at_end_cases in Htl as [->| ->]; [done|]. simpl.
    rewrite orb_false_r. unfold is_letter in Ha.
    apply andb_true_iff in Ha as [_ Ha]. by apply negb_true_iff in Ha.
Qed.

(** Two ways to read a text as something, a letter, digits and the end give
    the same letter and the same digits. *)
Lemma id_suffix_unique a b u w ds ds' tl fin :
  is_letter a = true → is_letter b = true →
  decimal_text ds' = true → at_end tl = true →
  decimal_text ds = true → at_end fin = true →
  u +:+ String a (ds' +:+ tl) = w +:+ String b (ds +:+ fin) →
  a = b ∧ ds' = ds.
Proof.
  intros Ha Hb Hds' Htl Hds Hfin. revert w.
  induction u as [|c u IH]; intros [|c' w]; rewrite ?app_nil_l_s, ?app_cons.
  - intros [= -> Heq]. split; [done|].
    pose proof (span_digits_app ds' tl Hds' (at_end_no_digit _ Htl)) as H1.
    pose proof (span_digits_app ds fin Hds (at_end_no_digit _ Hfin)) as H2.
    rewrite Heq, H2 in H1. by injection H1.
  - intros [= -> Heq]. exfalso.
    pose proof (string_has_digits_end b ds' tl Hb Hds' Htl) as H.
    rewrite Heq, string_has_app in H. simpl in H.
    rewrite Ascii.eqb_refl in H. simpl in H. by rewrite orb_true_r in H.
  - intros [= -> Heq]. exfalso.
    pose proof (string_has_digits_end a ds fin Ha Hds Hfin) as H.
    rewrite <-Heq, string_has_app in H. simpl in H.
    rewrite Ascii.eqb_refl in H. simpl in H. by rewrite orb_true_r in H.
  - intros [= -> Heq]. by apply (IH w).
Qed.

Lemma re_search_here lit letter s g :
  match_here lit letter s = Some g → re_search lit letter s = Some g.
Proof. intros H. destruct s; simpl; by rewrite H. Qed.

Lemma re_search_complete lit letter pre ds tl :
  is_letter letter = true →
  ds ≠ "" → decimal_text ds = true → at_end tl = true →
  re_search lit letter (pre +:+ lit +:+ String letter (ds +:+ tl)) = Some (String letter ds).
Proof.
  intros Hl Hne Hds Htl.
  assert (∀ t g, match_here lit letter t = Some g →
            (∃ u, t = u +:+ String letter (ds +:+ tl)) → g = String letter ds) as Hsame.
  { intros t g (ds' & tl' & -> & _ & Hds' & Htl' & ->)%match_here_spec [u Hu].
    destruct (id_suffix_unique letter letter lit u ds ds' tl' tl) as [_ ->]; auto. }
  induction pre as [|c pre IH].
  - rewrite app_nil_l_s. apply re_search_here, match_here_spec. eauto 10.
  - rewrite app_cons. simpl.
    destruct (match_here lit letter (String c (pre +:+ lit +:+ String letter (ds +:+ tl))))
      as [g|] eqn:E; [|done].
    f_equal. eapply Hsame; [exact E|].
    exists (String c (pre +:+ lit)). by rewrite !app_cons, app_assoc_s.
Qed.

Lemma is_id_intro letter ds :
  ds ≠ "" → decimal_text ds = true → is_id letter (String letter ds) = true.
Proof.
  intros Hne Hds. unfold is_id. rewrite Ascii.eqb_refl, Hds.
  apply String.eqb_neq in Hne. by rewrite Hne.
Qed.

Lemma search_value_sound lit letter v g :
  search_value lit letter v = Ret (Some g) →
  is_id letter g = true ∧ ∃ s, v = JStr s ∧ ends_with s (lit +:+ g).
Proof.
  unfold search_value. destruct v as [| | | |s| |]; try done.
  intros [= (pre & ds & tl & -> & Hne & Hds & Htl & ->)%re_search_sound].
  split; [by apply is_id_intro|]. exists (pre +:+ lit +:+ String letter (ds +:+ tl)).
  split; [done|]. exists pre.
  apply at_end_cases in Htl as [->| ->].
  - left. by rewrite app_nil_r_s.
  - right. f_equal. by rewrite app_assoc_s.
Qed.

(** The digits of an id need not be the ASCII ones. *)
Example extract_other_scripts :
  extract_qid (JStr "http://www.wikidata.org/entity/Q١٢") = Ret (Some "Q١٢") ∧
  extract_pid (JStr "http://www.wikidata.org/prop/direct/P3１") = Ret (Some "P3１") ∧
  is_id "Q" "Q١٢" = true ∧
  all_digits "١٢" = false ∧
  extract_qid (JStr "http://www.wikidata.org/entity/Q½") = Ret None.
Proof. repeat split; vm_compute; reflexivity. Qed.

(** X2. What [extract_qid] returns is an entity id, the letter Q and then
    one decimal digit or more, of any script, and the text of the cell ends
    with [/entity/] and that id, or with these and one last newline; the
    same holds of [extract_pid] with the letter P and [/prop/direct/]. *)
Theorem extract_ids_sound x g :
  (extract_qid x = Ret (Some g) →
   is_id "Q" g = true ∧ ∃ s, get_value x = JStr s ∧ ends_with s ("/entity/" +:+ g)) ∧
  (extract_pid x = Ret (Some g) →
   is_id "P" g = true ∧ ∃ s, get_value x = JStr s ∧ ends_with s ("/prop/direct/" +:+ g)).
Proof. split; apply search_value_sound. Qed.

Lemma extract_ids_sound_witness :
  is_id "Q" "Q42" = true ∧
  ∃ s, get_value (uri "http://www.wikidata.org/entity/Q42") = JStr s ∧
       ends_with s ("/entity/" +:+ "Q42").
Proof.
  apply (proj1 (extract_ids_sound (uri "http://www.wikidata.org/entity/Q42") "Q42")).
  vm_compute. reflexivity.
Defined.

(** X1. A cell whose text ends with [/entity/Q] and one ASCII digit or more,
    with or without one last newline, yields that id, whatever stands before and
    whether the cell is a bare string or a wrapped value; the same holds of
    property ids after [/prop/direct/P]. *)
Theorem extract_ids_complete pre ds tl items :
  ds ≠ "" → all_digits ds = true → at_end tl = true →
  (extract_qid (JStr (pre +:+ "/entity/" +:+ String "Q" (ds +:+ tl))) =
     Ret (Some (String "Q" ds))) ∧
  (extract_pid (JStr (pre +:+ "/prop/direct/" +:+ String "P" (ds +:+ tl))) =
     Ret (Some (String "P" ds))) ∧
  (dict_lookup items "value" =
     Some (JStr (pre +:+ "/entity/" +:+ String "Q" (ds +:+ tl))) →
   extract_qid (JDict items) = Ret (Some (String "Q" ds))) ∧
  (dict_lookup items "value" =
     Some (JStr (pre +:+ "/prop/direct/" +:+ String "P" (ds +:+ tl))) →
   extract_pid (JDict items) = Ret (Some (String "P" ds))).
Proof.
  intros Hne Hds%all_digits_decimal Htl.
  assert (re_search "/entity/" "Q" (pre +:+ "/entity/" +:+ String "Q" (ds +:+ tl)) =
            Some (String "Q"%char ds)) as HQ by by apply re_search_complete.
  assert (re_search "/prop/direct/" "P" (pre +:+ "/prop/direct/" +:+ String "P" (ds +:+ tl)) =
            Some (String "P"%char ds)) as HP by by apply re_search_complete.
  unfold extract_qid, extract_pid. repeat split.
  - simpl. by rewrite HQ.
  - simpl. by rewrite HP.
  - intros Hv. rewrite (get_value_wrapped _ _ Hv). simpl. by rewrite HQ.
  - intros Hv. rewrite (get_value_wrapped _ _ Hv). simpl. by rewrite HP.
Qed.

Lemma extract_ids_complete_witness :
  extract_qid (JStr ("http://www.wikidata.org" +:+ "/entity/" +:+ String "Q" ("42" +:+ nl))) =
    Ret (Some "Q42") ∧
  extract_pid (JStr ("http://www.wikidata.org" +:+ "/prop/direct/" +:+ String "P" ("42" +:+ nl))) =
    Ret (Some "P42").
Proof.
  destruct (extract_ids_complete "http://www.wikidata.org" "42" nl []) as (H1 & H2 & _);
    [done|reflexivity|reflexivity|].
  exact (conj H1 H2).
Defined.

(** X3. No cell yields both an entity id and a property id. *)
Theorem extract_ids_disjoint x q :
  (extract_qid x = Ret (Some q) → extract_pid x = Ret None) ∧
  (extract_pid x = Ret (Some q) → extract_qid x = Ret None).
Proof.
  assert (∀ lit1 l1 lit2 l2 s g,
            is_letter l1 = true → is_letter l2 = true → l1 ≠ l2 →
            re_search lit1 l1 s = Some g → re_search lit2 l2 s = None) as Hex.
  { intros lit1 l1 lit2 l2 s g H1 H2 Hne Hs.
    destruct (re_search lit2 l2 s) as [g'|] eqn:Hs'; [|done]. exfalso.
    apply re_search_sound in Hs as (pre & ds & tl & -> & _ & Hds & Htl & _).
    apply re_search_sound in Hs' as (pre' & ds' & tl' & Heq & _ & Hds' & Htl' & _).
    rewrite <-!app_assoc_s in Heq.
    by destruct (id_suffix_unique l1 l2 _ _ ds' ds tl tl' H1 H2 Hds Htl Hds' Htl' Heq). }
  unfold extract_qid, extract_pid, search_value.
  split; destruct (get_value x) as [| | | |s| |]; try done; intros [= Hs]; f_equal;
    eapply Hex; try exact Hs; done.
Qed.

Lemma extract_ids_disjoint_witness :
  extract_pid (JStr "http://www.wikidata.org/entity/Q42") = Ret None.
Proof.
  apply (proj1 (extract_ids_disjoint (JStr "http://www.wikidata.org/entity/Q42") "Q42")).
  reflexivity.
Defined.

Lemma search_value_raise_iff lit letter v e :
  search_value lit letter v = Raise e ↔ e = TypeError ∧ ∀ t, v ≠ JStr t.
Proof.
  unfold search_value. split.
  - destruct v; try done; intros [= <-]; by split.
  - intros [-> Hv]. destruct v; try done. by destruct (Hv s).
Qed.

Lemma get_value_not_text x :
  (∀ t, get_value x ≠ JStr t) ↔
  ∃ items v, x = JDict items ∧ dict_lookup items "value" = Some v ∧ ∀ t, v ≠ JStr t.
Proof.
  pose proof (get_value_text x) as Hx. split.
  - intros Hv. destruct x as [| | | | | |items]; try by destruct (Hv _ Hx).
    destruct (dict_lookup items "value") as [v|] eqn:Hl; [|by destruct (Hv _ Hx)].
    exists items, v. repeat split; try done. intros t ->. by destruct (Hv t).
  - intros (items & v & -> & Hl & Hv) t. rewrite Hl in Hx. rewrite Hx. apply Hv.
Qed.

(** X4. [extract_qid] raises on one kind of cell only, a dict whose value
    field is present and is not a string, and what it raises there is
    [TypeError]; on every other cell it returns.  The same holds of
    [extract_pid], which raises on the very same cells. *)
Theorem extract_ids_raise x e :
  (extract_qid x = Raise e ↔
   e = TypeError ∧
   ∃ items v, x = JDict items ∧ dict_lookup items "value" = Some v ∧ ∀ t, v ≠ JStr t) ∧
  (extract_pid x = Raise e ↔
   e = TypeError ∧
   ∃ items v, x = JDict items ∧ dict_lookup items "value" = Some v ∧ ∀ t, v ≠ JStr t) ∧
  (extract_qid x = Raise e ↔ extract_pid x = Raise e).
Proof.
  unfold extract_qid, extract_pid.
  rewrite !search_value_raise_iff, get_value_not_text. tauto.
Qed.

(** ** Rows that raise *)

Lemma hash_key_raise x e : hash_key x = Raise e → e = TypeError.
Proof. destruct x; simpl; congruence. Qed.

Lemma ensure_node_raise q label s e :
  (ensure_node q label s).2 = Raise e → e = TypeError.
Proof.
  unfold ensure_node. destruct (truthy label); [|done].
  destruct (hash_key label) eqn:E; [done|]. simpl. intros [= <-].
  by eapply hash_key_raise.
Qed.

(** [process_row] in full: the builder it leaves and its outcome, neither
    of which depends on the other. *)
Lemma process_row_full row s :
  process_row row s = (apply_all (row_actions row) s, row_outcome row).
Proof.
  pose proof (process_row_run row s) as Hrun. unfold run in Hrun.
  destruct (process_row row s) as [s' o] eqn:Hp. simpl in Hrun. subst s'. f_equal.
  revert Hp. unfold process_row, row_outcome, bind, lift, ret, obind.
  destruct (row_subj row) as [subj|?]; [|by intros [= _ <-]].
  destruct (row_subj_label row) as [sl|?]; [|by intros [= _ <-]].
  destruct (opt_truthy subj); simpl; [|by intros [= _ <-]].
  pose proof (ensure_node_outcome (default "" subj) sl s) as Hout.
  pose proof (ensure_node_raise (default "" subj) sl s) as Hraise.
  destruct (ensure_node (default "" subj) sl s) as [s1 [n|e]]; simpl in *;
    destruct (ensure_raises sl); try done.
  2:{ intros [= _ <-]. by rewrite (Hraise e). }
  destruct (row_pid row) as [pid|?]; [|by intros [= _ <-]].
  destruct (row_prop_label row pid) as [pl|?]; [|by intros [= _ <-]].
  destruct (row_obj row) as [obj|?]; [|by intros [= _ <-]].
  destruct (row_obj_label row) as [ol|?]; [|by intros [= _ <-]].
  destruct (opt_truthy obj); simpl; [|by intros [= _ <-]].
  pose proof (ensure_node_outcome (default "" obj) ol s1) as Hout2.
  pose proof (ensure_node_raise (default "" obj) ol s1) as Hraise2.
  destruct (ensure_node (default "" obj) ol s1) as [s2 [n2|e]]; simpl in *;
    destruct (ensure_raises ol); try done.
  2:{ intros [= _ <-]. by rewrite (Hraise2 e). }
  unfold add_edge.
  destruct (make_key (default "" subj) (default "" obj) pid pl) as [key|?];
    [|by intros [= _ <-]].
  case_bool_decide; by intros [= _ <-].
Qed.

Lemma or_id_raise a b e : or_id a b = Raise e → a = Raise e ∨ b = Raise e.
Proof.
  unfold or_id, obind. destruct a as [x|]; [|by left; congruence].
  destruct (opt_truthy x); [done|by right].
Qed.

Lemma or_val_raise a b e : or_val a b = Raise e → a = Raise e ∨ b = Raise e.
Proof.
  unfold or_val, obind. destruct a as [x|]; [|by left; congruence].
  destruct (truthy x); [done|by right].
Qed.

Lemma search_value_raise lit letter v e :
  search_value lit letter v = Raise e → e = TypeError.
Proof. destruct v; simpl; congruence. Qed.

Lemma qid_at_raise row k e : qid_at row k = Raise e → exn_of_row e.
Proof.
  unfold qid_at, row_get, py_get, obind, extract_qid.
  destruct row; try (intros [= <-]; by right).
  intros ->%search_value_raise. by left.
Qed.

Lemma pid_at_raise row k e : pid_at row k = Raise e → exn_of_row e.
Proof.
  unfold pid_at, row_get, py_get, obind, extract_pid.
  destruct row; try (intros [= <-]; by right).
  intros ->%search_value_raise. by left.
Qed.

Lemma value_at_raise row k e : value_at row k = Raise e → exn_of_row e.
Proof.
  unfold value_at, row_get, py_get, obind.
  destruct row; try (intros [= <-]; by right); done.
Qed.

Lemma make_key_raise src dst pid pl e : make_key src dst pid pl = Raise e → e = TypeError.
Proof.
  unfold make_key, obind. destruct (hash_key (py_or pl (JStr ""))) eqn:E; [done|].
  intros [= <-]. by eapply hash_key_raise.
Qed.

Lemma row_outcome_raise row e :
  row_outcome row = Raise e →
  exn_of_row e ∧ ∀ a, a ∈ row_actions row → ∃ q k, a = ANode q k.
Proof.
  unfold row_outcome, row_actions, after, obind.
  destruct (row_subj row) as [subj|e0] eqn:Hsubj.
  2:{ intros [= <-]. split; [|by intros a ?%elem_of_nil].
      unfold row_subj in Hsubj.
      apply or_id_raise in Hsubj as [H|[H|H]%or_id_raise]; by eapply qid_at_raise. }
  destruct (row_subj_label row) as [sl|e0] eqn:Hsl.
  2:{ intros [= <-]. split; [|by intros a ?%elem_of_nil].
      unfold row_subj_label in Hsl.
      apply or_val_raise in Hsl as [H|[H|H]%or_val_raise]; by eapply value_at_raise. }
  destruct (opt_truthy subj); simpl; [|done].
  destruct (ensure_raises sl).
  { intros [= <-]. split; [by left|]. intros a ->%list_elem_of_singleton. eauto. }
  destruct (row_pid row) as [pid|e0] eqn:Hpid.
  2:{ intros [= <-]. split; [|intros a ->%list_elem_of_singleton; eauto].
      unfold row_pid in Hpid. apply or_id_raise in Hpid as [H|H]; by eapply pid_at_raise. }
  destruct (row_prop_label row pid) as [pl|e0] eqn:Hpl.
  2:{ intros [= <-]. split; [|intros a ->%list_elem_of_singleton; eauto].
      unfold row_prop_label in Hpl.
      apply or_val_raise in Hpl as [H|[H|H]%or_val_raise];
        [by eapply value_at_raise..|done]. }
  destruct (row_obj row) as [obj|e0] eqn:Hobj.
  2:{ intros [= <-]. split; [|intros a ->%list_elem_of_singleton; eauto].
      unfold row_obj in Hobj.
      apply or_id_raise in Hobj as [H|[H|H]%or_id_raise]; by eapply qid_at_raise. }
  destruct (row_obj_label row) as [ol|e0] eqn:Hol.
  2:{ intros [= <-]. split; [|intros a ->%list_elem_of_singleton; eauto].
      unfold row_obj_label in Hol.
      apply or_val_raise in Hol as [H|[H|H]%or_val_raise]; by eapply value_at_raise. }
  destruct (opt_truthy obj); simpl; [|done].
  destruct (ensure_raises ol).
  { intros [= <-]. split; [by left|].
    intros a [->|[->|?%elem_of_nil]%elem_of_cons]%elem_of_cons; eauto; done. }
  destruct (make_key (default "" subj) (default "" obj) pid pl) as [key|e0] eqn:Hkey;
    [done|].
  intros [= <-]. split; [left; by eapply make_key_raise|].
  intros a [->|[->|?%elem_of_nil]%elem_of_cons]%elem_of_cons; eauto; done.
Qed.

Lemma apply_all_nodes_only l s :
  (∀ a, a ∈ l → ∃ q k, a = ANode q k) →
  edges (apply_all l s) = edges s ∧ edge_seen (apply_all l s) = edge_seen s ∧
  prop_counts (apply_all l s) = prop_counts s.
Proof.
  revert s. induction l as [|a l IH]; intros s Hl; [done|].
  destruct (Hl a) as (q & k & ->); [by left|]. simpl.
  destruct (IH (add_label q k s)) as (-> & -> & ->); [|done].
  intros a Ha. apply Hl. by right.
Qed.

(** X6. A row on which [process_row] raises leaves no edge behind: the edge
    list, the seen keys and the counters are as before (only nodes may have
    been added), the exception is a [TypeError] or an [AttributeError], and
    the same row raises the same exception on every builder. *)
Theorem failing_row_adds_no_edge row s e :
  (process_row row s).2 = Raise e →
  (e = TypeError ∨ e = AttributeError) ∧
  edges (run (process_row row) s) = edges s ∧
  edge_seen (run (process_row row) s) = edge_seen s ∧
  prop_counts (run (process_row row) s) = prop_counts s ∧
  ∀ s', (process_row row s').2 = Raise e.
Proof.
  rewrite process_row_run, process_row_full. simpl.
  intros Hraise. destruct (row_outcome_raise row e Hraise) as [He Hacts].
  split; [exact He|].
  destruct (apply_all_nodes_only (row_actions row) s Hacts) as (-> & -> & ->).
  repeat split. intros s'. by rewrite process_row_full.
Qed.

Lemma failing_row_adds_no_edge_witness :
  let row := JDict [("item", uri "http://www.wikidata.org/entity/Q1");
                    ("prop", JDict [("value", JInt 5)]);
                    ("value", uri "http://www.wikidata.org/entity/Q2")] in
  let s := run (process_row earth_row) KGBuilder_init in
  (TypeError = TypeError ∨ TypeError = AttributeError) ∧
  edges (run (process_row row) s) = edges s ∧
  edge_seen (run (process_row row) s) = edge_seen s ∧
  prop_counts (run (process_row row) s) = prop_counts s ∧
  ∀ s', (process_row row s').2 = Raise TypeError.
Proof.
  apply (failing_row_adds_no_edge
           (JDict [("item", uri "http://www.wikidata.org/entity/Q1");
                   ("prop", JDict [("value", JInt 5)]);
                   ("value", uri "http://www.wikidata.org/entity/Q2")])
           (run (process_row earth_row) KGBuilder_init) TypeError).
  vm_compute. reflexivity.
Defined.

(** ** Rows of text *)

Lemma text_cells_value items k :
  text_cells (JDict items) → ∃ t, get_value (dict_get items k JNull) = JStr t.
Proof. intros H. apply (H k). by rewrite value_at_dict. Qed.

Lemma text_cells_qid_at items k :
  text_cells (JDict items) → ∃ o, qid_at (JDict items) k = Ret o.
Proof.
  intros [t Ht]%(text_cells_value items k). unfold qid_at, extract_qid. simpl.
  rewrite Ht. simpl. eauto.
Qed.

Lemma text_cells_pid_at items k :
  text_cells (JDict items) → ∃ o, pid_at (JDict items) k = Ret o.
Proof.
  intros [t Ht]%(text_cells_value items k). unfold pid_at, extract_pid. simpl.
  rewrite Ht. simpl. eauto.
Qed.

Lemma or_id_returns a b : (∃ x, a = Ret x) → (∃ y, b = Ret y) → ∃ z, or_id a b = Ret z.
Proof.
  intros [x ->] [y ->]. unfold or_id. simpl. destruct (opt_truthy x); eauto.
Qed.

Lemma or_val_text a b :
  (∃ t, a = Ret (JStr t)) → (∃ y, b = Ret y ∧ (y = JNull ∨ ∃ t, y = JStr t)) →
  ∃ z, or_val a b = Ret z ∧ (z = JNull ∨ ∃ t, z = JStr t).
Proof.
  intros [t ->] (y & -> & Hy). unfold or_val. simpl.
  destruct (negb (String.eqb t "")); eauto.
Qed.

Lemma text_cells_value_at items k :
  text_cells (JDict items) → ∃ t, value_at (JDict items) k = Ret (JStr t).
Proof.
  intros [t Ht]%(text_cells_value items k). rewrite value_at_dict, Ht. eauto.
Qed.

Lemma or_val_text2 a b :
  (∃ t, a = Ret (JStr t)) → (∃ t, b = Ret (JStr t)) → ∃ t, or_val a b = Ret (JStr t).
Proof.
  intros [t ->] [u ->]. unfold or_val. simpl. destruct (negb (String.eqb t "")); eauto.
Qed.

Lemma ensure_raises_text t : ensure_raises (JStr t) = false.
Proof. unfold ensure_raises. simpl. by rewrite andb_false_r. Qed.

(** X5. On a row that is a dict whose cells all hold text, [process_row]
    returns without raising, whatever the builder. *)
Theorem text_row_never_raises items s :
  text_cells (JDict items) → (process_row (JDict items) s).2 = Ret ().
Proof.
  intros Hrow. rewrite process_row_full. simpl.
  unfold row_outcome, obind.
  destruct (or_id_returns (qid_at (JDict items) "item")
              (or_id (qid_at (JDict items) "item1") (qid_at (JDict items) "subject")))
    as [subj Hsubj]; [by apply text_cells_qid_at| |].
  { apply or_id_returns; by apply text_cells_qid_at. }
  fold (row_subj (JDict items)) in Hsubj. rewrite Hsubj.
  destruct (or_val_text2 (value_at (JDict items) "itemLabel")
              (or_val (value_at (JDict items) "item1Label")
                      (value_at (JDict items) "subjectLabel")))
    as [sl Hsl]; [by apply text_cells_value_at| |].
  { apply or_val_text2; by apply text_cells_value_at. }
  fold (row_subj_label (JDict items)) in Hsl. rewrite Hsl.
  destruct (opt_truthy subj); simpl; [|done]. rewrite ensure_raises_text.
  destruct (or_id_returns (pid_at (JDict items) "prop") (pid_at (JDict items) "p"))
    as [pid Hpid]; [by apply text_cells_pid_at..|].
  fold (row_pid (JDict items)) in Hpid. rewrite Hpid.
  destruct (or_val_text (value_at (JDict items) "propLabel")
              (or_val (value_at (JDict items) "pl_") (Ret (opt_json pid))))
    as (pl & Hpl & Hplt); [by apply text_cells_value_at| |].
  { apply or_val_text; [by apply text_cells_value_at|].
    exists (opt_json pid). split; [done|]. destruct pid; simpl; eauto. }
  fold (row_prop_label (JDict items) pid) in Hpl. rewrite Hpl.
  destruct (or_id_returns (qid_at (JDict items) "value")
              (or_id (qid_at (JDict items) "item2") (qid_at (JDict items) "o")))
    as [obj Hobj]; [by apply text_cells_qid_at| |].
  { apply or_id_returns; by apply text_cells_qid_at. }
  fold (row_obj (JDict items)) in Hobj. rewrite Hobj.
  destruct (or_val_text2 (value_at (JDict items) "valueLabel")
              (or_val (value_at (JDict items) "item2Label") (value_at (JDict items) "ol_")))
    as [ol Hol]; [by apply text_cells_value_at| |].
  { apply or_val_text2; by apply text_cells_value_at. }
  fold (row_obj_label (JDict items)) in Hol. rewrite Hol.
  destruct (opt_truthy obj); simpl; [|done]. rewrite ensure_raises_text.
  unfold make_key, py_or. destruct Hplt as [->|[t ->]]; simpl; [done|].
  by destruct (negb (String.eqb t "")).
Qed.

Lemma text_row_never_raises_witness :
  (process_row earth_row (run (process_row moon_row) KGBuilder_init)).2 = Ret ().
Proof.
  apply (text_row_never_raises
           [("item", uri "http://www.wikidata.org/entity/Q1");
            ("itemLabel", literal "Earth");
            ("prop", uri "http://www.wikidata.org/prop/direct/P31");
            ("propLabel", literal "instance of");
            ("value", uri "http://www.wikidata.org/entity/Q2");
            ("valueLabel", literal "Planet")]).
  apply text_cells_dict. repeat constructor; eexists; reflexivity.
Defined.

(** ** What ingestion keeps *)

Global Instance grows_preorder : PreOrder grows.
Proof.
  split.
  - intros s. split; [|split; [|split]]; [|by exists []; rewrite app_nil_r|done|done].
    intros q n Hq. by exists n.
  - intros s1 s2 s3 (Hn & [new He] & Hs & Hc) (Hn' & [new' He'] & Hs' & Hc').
    split; [|split; [|split]].
    + intros q n Hq. destruct (Hn q n Hq) as (n2 & Hq2 & Hid & Hl).
      destruct (Hn' q n2 Hq2) as (n3 & Hq3 & Hid' & Hl').
      exists n3. split; [done|]. split; [congruence|]. by etrans.
    + exists (new ++ new'). by rewrite He', He, app_assoc.
    + by etrans.
    + intros pc. etrans; [apply Hc|apply Hc'].
Qed.

Lemma grows_add_label q k s : grows s (add_label q k s).
Proof.
  split; [|split; [|split]]; [|by exists []; rewrite app_nil_r|done|done].
  intros q' n Hq'. rewrite nodes_add_label, lookup_insert.
  case_decide as Hq; [|by exists n]. subst q'. rewrite Hq'. simpl.
  eexists. split; [done|]. split; [done|]. simpl. set_solver.
Qed.

Lemma grows_put_edge e key s : grows s (put_edge e key s).
Proof.
  unfold put_edge. case_bool_decide; [done|].
  split; [|split; [|split]]; simpl.
  - intros q n Hq. by exists n.
  - by exists [e].
  - set_solver.
  - intros pc. destruct (decide ((key.1.2, key.2) = pc)) as [->|Hne].
    + rewrite lookup_insert_eq. simpl. lia.
    + by rewrite lookup_insert_ne.
Qed.

Lemma grows_apply a s : grows s (apply a s).
Proof. destruct a; [apply grows_add_label|apply grows_put_edge]. Qed.

Lemma grows_apply_all l s : grows s (apply_all l s).
Proof.
  revert s. induction l as [|a l IH]; intros s; simpl; [done|].
  etrans; [apply grows_apply|apply IH].
Qed.

(** X7. Ingestion only adds: after any rows, every node that was there is
    still there under the same id with at least the labels it had, the edges
    that were there come first and in the same order, no seen key is lost
    and no counter went down. *)
Theorem ingest_only_adds rows s :
  let s' := ingest rows s in
  (∀ q n, nodes s !! q = Some n →
     ∃ n', nodes s' !! q = Some n' ∧ node_id n' = node_id n ∧
           node_labels n ⊆ node_labels n') ∧
  (∃ new, edges s' = edges s ++ new) ∧
  edge_seen s ⊆ edge_seen s' ∧
  (∀ pc, default 0 (prop_counts s !! pc) ≤ default 0 (prop_counts s' !! pc)).
Proof. simpl. rewrite ingest_actions. apply grows_apply_all. Qed.

(** ** Rows and files that count for nothing *)

Lemma row_actions_no_subject row : has_subject row = false → row_actions row = [].
Proof.
  unfold has_subject, row_actions, after.
  destruct (row_subj row) as [subj|]; [|done].
  destruct (row_subj_label row); [|done]. by intros ->.
Qed.

Lemma ingest_filter_subject rows s : ingest rows s = ingest (filter (λ row, has_subject row = true) rows) s.
Proof.
  revert s. induction rows as [|row rows IH]; intros s; [done|].
  rewrite filter_cons. destruct (decide (has_subject row = true)) as [H|H]; simpl.
  - apply IH.
  - rewrite process_row_run, row_actions_no_subject by by destruct (has_subject row).
    apply IH.
Qed.

(** X8. The rows from which no subject id resolves (rows that are no dict,
    rows on whose subject cells the extraction raises, rows with no entity
    URI in them) and the files on which [load_json_any] raises can be taken
    out of the input: the builder that the two loops of [build] leave is the
    same. *)
Theorem ingest_skips_rows_and_files :
  (∀ rows s,
     ingest rows s = ingest (filter (λ row, has_subject row = true) rows) s) ∧
  (∀ files s,
     ingest_files files s =
     ingest_files (filter (λ f, is_ret (load_json_any f) = true) files) s).
Proof.
  split; [apply ingest_filter_subject|].
  intros files s. revert s. induction files as [|f files IH]; intros s; [done|].
  rewrite filter_cons. destruct (decide (is_ret (load_json_any f) = true)) as [H|H]; simpl.
  - apply IH.
  - unfold file_rows. destruct (load_json_any f); [done|]. simpl. apply IH.
Qed.

(** ** How much a row can add *)

Lemma size_dom_add_label q k s :
  size (dom (nodes (add_label q k s))) ≤ S (size (dom (nodes s))).
Proof.
  rewrite dom_add_label, size_union_alt, size_singleton.
  assert (size (dom (nodes s) ∖ {[q]}) ≤ size (dom (nodes s))); [|lia].
  apply subseteq_size. set_solver.
Qed.

Lemma length_edges_put_edge e key s :
  length (edges (put_edge e key s)) ≤ S (length (edges s)).
Proof.
  unfold put_edge. case_bool_decide; simpl; [lia|]. rewrite length_app. simpl. lia.
Qed.

Lemma nodes_put_edge e key s : nodes (put_edge e key s) = nodes s.
Proof. unfold put_edge. by case_bool_decide. Qed.

Lemma row_shape_bounds l s :
  row_shape l →
  length (edges (apply_all l s)) ≤ S (length (edges s)) ∧
  size (dom (nodes (apply_all l s))) ≤ 2 + size (dom (nodes s)).
Proof.
  intros [|q k|q k q' k'|q k q' k' pid pl key Hkey]; cbn [apply_all foldl apply].
  - lia.
  - rewrite edges_add_label. pose proof (size_dom_add_label q k s). lia.
  - rewrite !edges_add_label.
    pose proof (size_dom_add_label q k s).
    pose proof (size_dom_add_label q' k' (add_label q k s)). lia.
  - rewrite nodes_put_edge.
    pose proof (length_edges_put_edge (Edge q q' pid pl) key
                  (add_label q' k' (add_label q k s))) as He.
    rewrite !edges_add_label in He.
    pose proof (size_dom_add_label q k s).
    pose proof (size_dom_add_label q' k' (add_label q k s)). lia.
Qed.

(** X9. A row adds one edge at most and two nodes at most: after any rows,
    the builder holds no more edges than it held plus one for each row, and
    no more nodes than it held plus two for each row. *)
Theorem ingest_bounds rows s :
  length (edges (ingest rows s)) ≤ length (edges s) + length rows ∧
  size (dom (nodes (ingest rows s))) ≤ size (dom (nodes s)) + 2 * length rows.
Proof.
  revert s. induction rows as [|row rows IH]; intros s; simpl; [lia|].
  destruct (IH (run (process_row row) s)) as [He Hn].
  rewrite process_row_run in He, Hn.
  destruct (row_shape_bounds (row_actions row) s (row_actions_shape row)) as [He' Hn'].
  rewrite process_row_run. lia.
Qed.

(** ** Files met again *)

Lemma row_absorbed_later row rows s :
  row ∈ rows → all_absorbed (row_actions row) (ingest rows s).
Proof.
  intros (rows1 & rows2 & ->)%list_elem_of_split.
  rewrite ingest_app. simpl. rewrite ingest_actions.
  apply all_absorbed_mono_all. rewrite process_row_run. apply apply_all_absorbed.
Qed.

Lemma ingest_absorbed rows s :
  Forall (λ row, all_absorbed (row_actions row) s) rows → ingest rows s = s.
Proof.
  induction 1 as [|row rows Hrow _ IH]; [done|]. simpl.
  rewrite process_row_run, (all_absorbed_apply_all _ _ Hrow). exact IH.
Qed.

(** X15. Files whose rows were all ingested before change nothing: when
    every row of the files [later] is a row of the files [earlier], the
    builder after [earlier] and then [later] is the builder after [earlier];
    in particular ingesting the same files twice gives what ingesting them
    once gives. *)
Theorem ingest_files_again earlier later s :
  (∀ row, row ∈ concat (map file_rows later) → row ∈ concat (map file_rows earlier)) →
  ingest_files (earlier ++ later) s = ingest_files earlier s.
Proof.
  intros Hsub. rewrite !ingest_files_rows, map_app, concat_app, ingest_app.
  apply ingest_absorbed, Forall_forall. intros row Hrow.
  by apply row_absorbed_later, Hsub.
Qed.

Lemma ingest_files_again_witness :
  ingest_files ([file_b; file_c] ++ [file_c; file_a; file_b]) KGBuilder_init =
  ingest_files [file_b; file_c] KGBuilder_init.
Proof.
  apply (ingest_files_again [file_b; file_c] [file_c; file_a; file_b] KGBuilder_init).
  change (concat (map file_rows [file_c; file_a; file_b]))
    with [moon_row; earth_row; earth_row; earth_row; mass_row].
  change (concat (map file_rows [file_b; file_c]))
    with [earth_row; mass_row; moon_row; earth_row].
  intros row. rewrite !elem_of_cons. tauto.
Defined.

(** ** The two upsert methods on their own *)

(** X16. When [ensure_node] returns a node, that node is what the node map
    now holds under the id, it holds the label that was given if that is a
    true one, every other id maps to what it mapped to, and the edges, the
    seen keys and the counters are untouched. *)
Theorem ensure_node_returns_stored q label s s' n :
  ensure_node q label s = (s', Ret n) →
  nodes s' !! q = Some n ∧
  (∀ k, label_key label = Some k → k ∈ node_labels n) ∧
  (∀ n0, nodes s !! q = Some n0 →
     node_id n = node_id n0 ∧ node_labels n0 ⊆ node_labels n) ∧
  (nodes s !! q = None → node_id n = q) ∧
  (∀ q', q' ≠ q → nodes s' !! q' = nodes s !! q') ∧
  edges s' = edges s ∧ edge_seen s' = edge_seen s ∧ prop_counts s' = prop_counts s.
Proof.
  intros Hcall.
  pose proof (ensure_node_run q label s) as Hrun. unfold run in Hrun.
  rewrite Hcall in Hrun. simpl in Hrun. subst s'.
  assert (n = Node (node_id (default (Node q ∅) (nodes s !! q)))
                (from_option singleton ∅ (label_key label) ∪
                   node_labels (default (Node q ∅) (nodes s !! q)))) as ->.
  { apply (f_equal snd) in Hcall. revert Hcall. unfold ensure_node, label_key.
    destruct (truthy label).
    - destruct (hash_key label); simpl; [|done]. by intros [= <-].
    - simpl. intros [= <-]. by rewrite (left_id_L ∅ (∪)), node_eta. }
  rewrite nodes_add_label.
  split; [by rewrite lookup_insert_eq|].
  split; [intros k ->; simpl; set_solver|].
  split; [intros n0 ->; simpl; split; [done|set_solver]|].
  split; [by intros ->|].
  split; [intros q' Hq'; by rewrite lookup_insert_ne|done].
Qed.

Lemma ensure_node_returns_stored_witness :
  let s := run (process_row earth_row) KGBuilder_init in
  ∃ s' n, ensure_node "Q1" (JStr "Tierra") s = (s', Ret n) ∧
    nodes s' !! "Q1" = Some n ∧
    (∀ k, label_key (JStr "Tierra") = Some k → k ∈ node_labels n) ∧
    (∀ n0, nodes s !! "Q1" = Some n0 →
       node_id n = node_id n0 ∧ node_labels n0 ⊆ node_labels n) ∧
    (nodes s !! "Q1" = None → node_id n = "Q1") ∧
    (∀ q', q' ≠ "Q1" → nodes s' !! q' = nodes s !! q') ∧
    edges s' = edges s ∧ edge_seen s' = edge_seen s ∧ prop_counts s' = prop_counts s.
Proof.
  eexists _, _. split; [reflexivity|].
  apply (ensure_node_returns_stored "Q1" (JStr "Tierra")
           (run (process_row earth_row) KGBuilder_init)).
  reflexivity.
Defined.

(** ** The columns a row is read by *)

Lemma dict_get_agree items items' k d :
  dict_lookup items k = dict_lookup items' k → dict_get items k d = dict_get items' k d.
Proof. unfold dict_get. by intros ->. Qed.

(** X18. [process_row] reads a row by its sixteen columns only: two rows
    that hold the same under each of these columns change a builder in the
    same way and have the same outcome, whatever else they hold. *)
Theorem process_row_reads_columns items items' s :
  (∀ k, k ∈ row_columns → dict_lookup items k = dict_lookup items' k) →
  process_row (JDict items) s = process_row (JDict items') s.
Proof.
  intros Hcols.
  assert (∀ k, k ∈ row_columns → row_get (JDict items) k = row_get (JDict items') k) as Hget.
  { intros k Hk. unfold row_get, py_get. f_equal. by apply dict_get_agree, Hcols. }
  assert (∀ k, k ∈ row_columns → qid_at (JDict items) k = qid_at (JDict items') k) as Hq.
  { intros k Hk. unfold qid_at. by rewrite Hget. }
  assert (∀ k, k ∈ row_columns → pid_at (JDict items) k = pid_at (JDict items') k) as Hp.
  { intros k Hk. unfold pid_at. by rewrite Hget. }
  assert (∀ k, k ∈ row_columns → value_at (JDict items) k = value_at (JDict items') k) as Hv.
  { intros k Hk. unfold value_at. by rewrite Hget. }
  unfold process_row, row_subj, row_subj_label, row_pid, row_prop_label, row_obj,
    row_obj_label.
  rewrite !Hq, !Hp, !Hv; try done; unfold row_columns; set_solver.
Qed.

Lemma process_row_reads_columns_witness :
  process_row earth_row KGBuilder_init =
  process_row (JDict [("value", uri "http://www.wikidata.org/entity/Q2");
                      ("rank", JInt 3);
                      ("valueLabel", literal "Planet");
                      ("item", uri "http://www.wikidata.org/entity/Q1");
                      ("itemLabel", literal "Earth");
                      ("prop", uri "http://www.wikidata.org/prop/direct/P31");
                      ("propLabel", literal "instance of")]) KGBuilder_init.
Proof.
  apply (process_row_reads_columns
           [("item", uri "http://www.wikidata.org/entity/Q1");
            ("itemLabel", literal "Earth");
            ("prop", uri "http://www.wikidata.org/prop/direct/P31");
            ("propLabel", literal "instance of");
            ("value", uri "http://www.wikidata.org/entity/Q2");
            ("valueLabel", literal "Planet")]).
  intros k Hk. unfold row_columns in Hk.
  repeat (apply elem_of_cons in Hk as [->|Hk]; [reflexivity|]).
  by apply elem_of_nil in Hk.
Defined.

(** ** When the loader raises *)

(** X17. [load_json_any] raises in two cases only: on a file that cannot be
    read or parsed, and, with an [AttributeError], on a document that is a
    dict whose results entry is present and is not a dict; on every other
    document it returns, and the rows it returns are never none for a
    document that is not a list. *)
Theorem load_json_any_raises f :
  (∀ e, load_json_any f = Raise e ↔
        (f = None ∧ e = ReadError) ∨
        (e = AttributeError ∧
         ∃ items r, f = Some (JDict items) ∧ dict_lookup items "results" = Some r ∧
                    ∀ results, r ≠ JDict results)) ∧
  (∀ raw, f = Some raw → load_json_any f = Ret [] → raw = JList [] ∨
     ∃ items results, raw = JDict items ∧ dict_lookup items "results" = Some (JDict results) ∧
                      dict_lookup results "bindings" = Some (JList [])).
Proof.
  split.
  - intros e. destruct f as [raw|]; simpl.
    2:{ split; [intros [= <-]; by left|]. by intros [[_ ->]|(_ & ? & ? & ? & _)]. }
    pose proof (load_json_doc_shapes raw) as H. split.
    + intros He. right. rewrite He in H.
      destruct raw as [| | | | | |items]; try done.
      destruct (dict_lookup items "results") as [r|] eqn:Hr; [|done].
      destruct r as [| | | | | |results];
        try (injection H as <-; split; [done|]; exists items; eexists; by repeat split).
      by destruct (dict_lookup results "bindings") as [[]|].
    + intros [[? _]|(-> & items & r & [= ->] & Hr & Hnot)]; [done|].
      by apply (load_json_doc_results_not_dict items r).
  - intros raw -> Hempty. simpl in Hempty.
    pose proof (load_json_doc_shapes raw) as H. rewrite Hempty in H.
    destruct raw as [| | | | |rows|items]; try done.
    + left. by injection H as <-.
    + right. destruct (dict_lookup items "results") as [r|] eqn:Hr; [|done].
      destruct r as [| | | | | |results]; try done.
      destruct (dict_lookup results "bindings") as [[| | | | |rows|]|] eqn:Hb; try done.
      injection H as <-. by exists items, results.
Qed.

Lemma load_json_any_raises_witness :
  JDict [("results", JDict [("bindings", JList [])])] = JList [] ∨
  ∃ items results,
    JDict [("results", JDict [("bindings", JList [])])] = JDict items ∧
    dict_lookup items "results" = Some (JDict results) ∧
    dict_lookup results "bindings" = Some (JList []).
Proof.
  apply (proj2 (load_json_any_raises
                  (Some (JDict [("results", JDict [("bindings", JList [])])])))).
  - reflexivity.
  - reflexivity.
Defined.

(** ** Labels and ids that the builder holds *)

Lemma label_key_truthy label k : label_key label = Some k → falsy_key k = false.
Proof.
  unfold label_key. destruct (truthy label) eqn:Ht; [|done].
  destruct label as [|b|z|q r|t| |]; simpl in *; try done; intros [= <-]; simpl.
  - subst b. by apply bool_decide_eq_false.
  - apply bool_decide_eq_false. intros [= ->]. done.
  - by apply negb_true_iff in Ht.
  - by apply negb_true_iff in Ht.
Qed.

Lemma labels_truthy s q n x :
  call_reachable s → nodes s !! q = Some n → x ∈ node_labels n →
  falsy_key x = false.
Proof.
  intros Hs. revert q n x.
  induction Hs as [|q0 label s _ IH|src dst pid pl s _ IH]; intros q n x.
  - simpl. by rewrite lookup_empty.
  - rewrite ensure_node_run, nodes_add_label, lookup_insert.
    case_decide as Hq0; [|apply IH]. subst q0. intros [= <-]. simpl.
    intros [Hx|Hx]%elem_of_union.
    + destruct (label_key label) as [k|] eqn:Hk; simpl in Hx.
      * apply elem_of_singleton in Hx as ->. by eapply label_key_truthy.
      * by apply not_elem_of_empty in Hx.
    + destruct (nodes s !! q) as [n0|] eqn:E; simpl in Hx.
      * by eapply IH.
      * by apply not_elem_of_empty in Hx.
  - rewrite add_edge_run.
    destruct (make_key src dst pid pl); [rewrite nodes_put_edge|]; apply IH.
Qed.

(** X10. No node ever holds a false label: in every builder reached by
    calls of [ensure_node] and [add_edge], no label set holds the empty
    string, [None] or zero. *)
Theorem labels_never_empty s q n x :
  call_reachable s → nodes s !! q = Some n → x ∈ node_labels n →
  falsy_key x = false ∧ x ≠ HStr "" ∧ x ≠ HNone ∧ x ≠ HNum 0%Qc.
Proof.
  intros Hs Hq Hx. pose proof (labels_truthy s q n x Hs Hq Hx) as Hf.
  split; [done|]. repeat split; intros ->; simpl in Hf; done.
Qed.

Lemma labels_never_empty_witness :
  falsy_key (HStr "Earth") = false ∧ HStr "Earth" ≠ HStr "" ∧ HStr "Earth" ≠ HNone ∧
  HStr "Earth" ≠ HNum 0%Qc.
Proof.
  apply (labels_never_empty
           (run (ensure_node "Q1" (JStr "")) (run (ensure_node "Q1" (JStr "Earth")) KGBuilder_init))
           "Q1" (Node "Q1" {[HStr "Earth"]}) (HStr "Earth")).
  - repeat constructor.
  - vm_compute. reflexivity.
  - vm_compute. reflexivity.
Defined.

Lemma qid_at_id row k g : qid_at row k = Ret (Some g) → is_id "Q" g = true.
Proof.
  unfold qid_at, obind. destruct (row_get row k); [|done].
  by intros [? _]%search_value_sound.
Qed.

Lemma pid_at_id row k g : pid_at row k = Ret (Some g) → is_id "P" g = true.
Proof.
  unfold pid_at, obind. destruct (row_get row k); [|done].
  by intros [? _]%search_value_sound.
Qed.

Lemma row_subj_id row g : row_subj row = Ret (Some g) → is_id "Q" g = true.
Proof.
  unfold row_subj. intros [H|[H|H]%or_id_Some]%or_id_Some; by eapply qid_at_id.
Qed.

Lemma row_obj_id row g : row_obj row = Ret (Some g) → is_id "Q" g = true.
Proof.
  unfold row_obj. intros [H|[H|H]%or_id_Some]%or_id_Some; by eapply qid_at_id.
Qed.

Lemma row_pid_id row g : row_pid row = Ret (Some g) → is_id "P" g = true.
Proof. unfold row_pid. intros [H|H]%or_id_Some; by eapply pid_at_id. Qed.

Lemma ids_typed_add_label q k s :
  is_id "Q" q = true → ids_typed s → ids_typed (add_label q k s).
Proof.
  intros Hq [Hn He]. split; [|done].
  intros q'. rewrite dom_add_label. intros [->%elem_of_singleton|?]%elem_of_union; auto.
Qed.

Lemma ids_typed_put_edge e key s :
  is_id "Q" (source e) = true → is_id "Q" (target e) = true →
  match property_id e with Some p => is_id "P" p = true | None => True end →
  ids_typed s → ids_typed (put_edge e key s).
Proof.
  intros H1 H2 H3 [Hn He]. unfold put_edge. case_bool_decide; [done|].
  split; [done|]. intros e'. simpl.
  intros [?| ->%list_elem_of_singleton]%elem_of_app; auto.
Qed.

(** X11. In every builder reached by processing rows, every node id is the
    letter Q and then one decimal digit or more, of any script, so are the
    source and the target of every edge, and the property id of an edge,
    when it has one, is the letter P and then one decimal digit or more. *)
Theorem ids_are_typed s :
  row_reachable s →
  (∀ q, q ∈ dom (nodes s) → is_id "Q" q = true) ∧
  ∀ e, e ∈ edges s →
    is_id "Q" (source e) = true ∧ is_id "Q" (target e) = true ∧
    match property_id e with
    | Some p => is_id "P" p = true
    | None => True
    end.
Proof.
  change (row_reachable s → ids_typed s).
  induction 1 as [|row s _ IH].
  - split; [intros q; simpl; by rewrite dom_empty_L|intros e ?%elem_of_nil; done].
  - rewrite process_row_run. row_cases row.
    + done.
    + apply ids_typed_add_label; [by eapply row_subj_id|done].
    + repeat apply ids_typed_add_label; try done;
        [by eapply row_obj_id|by eapply row_subj_id].
    + apply ids_typed_put_edge; simpl;
        [by eapply row_subj_id|by eapply row_obj_id| |].
      * destruct pid as [p|]; [by eapply row_pid_id|done].
      * repeat apply ids_typed_add_label; try done;
          [by eapply row_obj_id|by eapply row_subj_id].
Qed.

Lemma ids_are_typed_witness :
  let s := run (process_row moon_row) (run (process_row earth_row) KGBuilder_init) in
  (∀ q, q ∈ dom (nodes s) → is_id "Q" q = true) ∧
  ∀ e, e ∈ edges s →
    is_id "Q" (source e) = true ∧ is_id "Q" (target e) = true ∧
    match property_id e with
    | Some p => is_id "P" p = true
    | None => True
    end.
Proof.
  apply (ids_are_typed
           (run (process_row moon_row) (run (process_row earth_row) KGBuilder_init))).
  repeat constructor.
Defined.

(** ** What the sanitizer hands back *)

(** X13. Whatever it is given, [sanitize_scalar] hands back a string, an
    integer, a float or a boolean, never [None] and never a list, a dict or
    another object; it hands such a value back as it is, so that sanitizing
    twice is sanitizing once. *)
Theorem sanitize_scalar_flat v :
  is_flat (sanitize_scalar v) = true ∧
  sanitize_scalar (sanitize_scalar v) = sanitize_scalar v ∧
  (is_flat v = true ↔ sanitize_scalar v = v).
Proof.
  destruct v as [[| | | | | |]|text]; simpl; repeat split; try done.
Qed.

(** ** When the normalization raises *)

Lemma row_reachable_call_reachable s : row_reachable s → call_reachable s.
Proof.
  induction 1 as [|row s _ IH]; [constructor|].
  rewrite process_row_run. row_cases row.
  - done.
  - rewrite <-ensure_node_run. by constructor.
  - rewrite <-!ensure_node_run. by do 2 constructor.
  - pose proof (add_edge_run q o pid pl
                  (add_label o (label_key ol) (add_label q (label_key l) s))) as H.
    rewrite Hkey in H. rewrite <-H, <-!ensure_node_run. by do 3 constructor.
Qed.

Lemma py_lt_raise a b e : py_lt a b = Raise e → e = TypeError.
Proof. destruct a, b; simpl; congruence. Qed.

Lemma py_lt_ret a b r :
  py_lt a b = Ret r → (is_hstr a ∧ is_hstr b) ∨ (is_hnum a ∧ is_hnum b).
Proof.
  destruct a as [|s|p], b as [|t|q]; simpl; try done; intros _.
  - left. split; eexists; done.
  - right. split; eexists; done.
Qed.

Lemma insert_sorted_raise x l e : insert_sorted x l = Raise e → e = TypeError.
Proof.
  induction l as [|y l IH]; simpl; [done|].
  destruct (py_lt x y) as [[]|] eqn:E; simpl; [done| |].
  - destruct (insert_sorted x l); simpl; [done|]. intros [= <-]. by apply IH.
  - intros [= <-]. by eapply py_lt_raise.
Qed.

Lemma sort_into_raise acc l e : sort_into acc l = Raise e → e = TypeError.
Proof.
  revert acc. induction l as [|x l IH]; intros acc; simpl; [done|].
  destruct (insert_sorted x acc) eqn:E; simpl; [apply IH|].
  intros [= <-]. by eapply insert_sorted_raise.
Qed.

Global Instance is_hstr_dec h : Decision (is_hstr h).
Proof.
  destruct h as [|s|q]; [right|left|right]; unfold is_hstr; [naive_solver|eauto|naive_solver].
Defined.

Global Instance is_hnum_dec h : Decision (is_hnum h).
Proof.
  destruct h as [|s|q]; [right|right|left]; unfold is_hnum; [naive_solver|naive_solver|eauto].
Defined.

Lemma is_hstr_not_hnum h : is_hstr h → is_hnum h → False.
Proof. by intros [s ->] [q [=]]. Qed.

(** When the items sorted so far are of one kind, [sorted] goes on without
    raising only over items of that kind. *)
Lemma sort_into_ret_kind (P : hval → Prop) acc l r :
  (P = is_hstr ∨ P = is_hnum) →
  acc ≠ [] → Forall P acc → sort_into acc l = Ret r → Forall P l.
Proof.
  intros HP. revert acc. induction l as [|x l IH]; intros acc Hne Hacc; simpl; [done|].
  destruct (insert_sorted x acc) as [acc'|] eqn:Hins; simpl; [|done].
  intros Hsort.
  assert (P x) as Hx.
  { destruct acc as [|y acc]; [done|]. simpl in Hins.
    destruct (py_lt x y) as [b|] eqn:Hlt; [|done].
    apply Forall_cons in Hacc as [Hy _].
    destruct (py_lt_ret _ _ _ Hlt) as [[Hxs Hys]|[Hxn Hyn]], HP as [->| ->]; try done.
    - by destruct (is_hstr_not_hnum y).
    - by destruct (is_hstr_not_hnum y). }
  constructor; [done|].
  apply (IH acc'); [| |done].
  - intros ->. apply insert_sorted_perm in Hins. by apply Permutation_nil_cons in Hins.
  - apply insert_sorted_perm in Hins. rewrite Hins. by constructor.
Qed.

Lemma sort_ret_kind l r :
  sort_into [] l = Ret r → length l ≤ 1 ∨ Forall is_hstr l ∨ Forall is_hnum l.
Proof.
  destruct l as [|x [|y l]]; [left; simpl; lia..|]. intros Hs. right.
  simpl in Hs.
  destruct (py_lt y x) as [b|] eqn:Hlt; [|done].
  assert (sort_into [x] (y :: l) = Ret r) as Hs'.
  { simpl. by rewrite Hlt. }
  destruct (py_lt_ret _ _ _ Hlt) as [[_ Hx]|[_ Hx]]; [left|right];
    (constructor; [done|]);
    (eapply (sort_into_ret_kind _ [x]); [auto|done|by constructor|exact Hs']).
Qed.

Lemma insert_sorted_nums x l :
  is_hnum x → Forall is_hnum l → ∃ l', insert_sorted x l = Ret l' ∧ Forall is_hnum l'.
Proof.
  intros Hx. induction 1 as [|y l Hy Hl (r & IH & Hr)]; simpl.
  - eexists. split; [done|]. by repeat constructor.
  - destruct Hx as [p ->], Hy as [q ->]. simpl.
    destruct (num_lt p q); simpl.
    + eexists. split; [done|]. repeat constructor; [by exists p|by exists q|done].
    + rewrite IH. simpl. eexists. split; [done|]. constructor; [by exists q|done].
Qed.

Lemma sort_into_nums acc l :
  Forall is_hnum acc → Forall is_hnum l →
  ∃ l', sort_into acc l = Ret l' ∧ Forall is_hnum l'.
Proof.
  intros Hacc Hl. revert acc Hacc.
  induction Hl as [|x l Hx Hl IH]; intros acc Hacc; simpl; [eauto|].
  destruct (insert_sorted_nums x acc Hx Hacc) as (acc' & -> & Hacc'). simpl.
  by apply IH.
Qed.

(** [sorted] returns on the lists that hold one item at most, strings only
    or numbers only, and on no other list. *)
Lemma py_sorted_returns arr l :
  is_ret (py_sorted arr l) = true ↔ length l ≤ 1 ∨ Forall is_hstr l ∨ Forall is_hnum l.
Proof.
  rewrite py_sorted_is_ret. split.
  - destruct (sort_into [] l) as [r|] eqn:E; [|done]. intros _. by eapply sort_ret_kind.
  - intros [Hlen|[Hs|Hn]].
    + by destruct l as [|x [|y l]]; [..|simpl in Hlen; lia].
    + by destruct (sort_into_strings [] l) as (r & -> & _).
    + by destruct (sort_into_nums [] l) as (r & -> & _).
Qed.

Lemma normalize_node_returns c q n :
  is_ret (normalize_node c q n) =
  is_ret (py_sorted (arrange c q) (elements (node_labels n))).
Proof. by rewrite normalize_node_is_ret, py_sorted_is_ret. Qed.

Lemma normalize_raise c ns e :
  normalize c ns = Raise e ↔
  e = TypeError ∧ ∃ q n, ns !! q = Some n ∧ is_ret (normalize_node c q n) = false.
Proof.
  unfold normalize. case_bool_decide as Hall.
  - split; [done|]. intros (_ & q & n & Hq & Hr). specialize (Hall q n Hq).
    simpl in Hall. congruence.
  - split; [|by intros [-> _]]. intros [= <-]. split; [done|].
    apply map_not_Forall in Hall as (q & n & Hq & Hr); [|apply _].
    exists q, n. split; [done|]. by destruct (is_ret (normalize_node c q n)).
Qed.

(** X12. [build] on a new builder raises in one case only, the same in
    every run: when some node was observed with a label that is a string
    and with a label that is a number, on which the [sorted] of the
    normalization raises a [TypeError] that nothing catches; in every other
    case [build] returns the graph. *)
Theorem build_raises c files e :
  build c files KGBuilder_init = Raise e ↔
  e = TypeError ∧
  ∃ q n t p, nodes (ingest_files files KGBuilder_init) !! q = Some n ∧
             HStr t ∈ node_labels n ∧ HNum p ∈ node_labels n.
Proof.
  set (s := ingest_files files KGBuilder_init).
  assert (call_reachable s) as Hs.
  { apply row_reachable_call_reachable. unfold s. rewrite ingest_files_rows.
    apply row_reachable_ingest. constructor. }
  assert (build c files KGBuilder_init = Raise e ↔ normalize c (nodes s) = Raise e) as ->.
  { unfold build. fold s.
    destruct (normalize c (nodes s)); simpl; split; try done; by intros [= ->]. }
  rewrite normalize_raise. split.
  - intros (-> & q & n & Hq & Hr). split; [done|]. exists q, n.
    rewrite normalize_node_returns in Hr.
    assert (¬ (length (elements (node_labels n)) ≤ 1 ∨
               Forall is_hstr (elements (node_labels n)) ∨
               Forall is_hnum (elements (node_labels n)))) as Hnot.
    { intros H%(py_sorted_returns (arrange c q)). congruence. }
    assert (∀ x, x ∈ node_labels n → is_hstr x ∨ is_hnum x) as Hkind.
    { intros x Hx. pose proof (labels_truthy s q n x Hs Hq Hx) as Hf.
      destruct x; [done|left; by eexists|right; by eexists]. }
    assert (∃ t, HStr t ∈ node_labels n) as [t Ht].
    { destruct (decide (Forall is_hnum (elements (node_labels n))))
        as [Hall|Hex]; [by destruct Hnot; right; right|].
      apply not_Forall_Exists in Hex; [|apply _].
      apply Exists_exists in Hex as (x & Hx%elem_of_elements & Hnx).
      destruct (Hkind x Hx) as [[t ->]|Hn]; [by exists t|by destruct Hnx]. }
    assert (∃ p, HNum p ∈ node_labels n) as [p Hp].
    { destruct (decide (Forall is_hstr (elements (node_labels n))))
        as [Hall|Hex]; [by destruct Hnot; right; left|].
      apply not_Forall_Exists in Hex; [|apply _].
      apply Exists_exists in Hex as (x & Hx%elem_of_elements & Hnx).
      destruct (Hkind x Hx) as [Hstr|[p ->]]; [by destruct Hnx|by exists p]. }
    by exists t, p.
  - intros (-> & q & n & t & p & Hq & Ht & Hp). split; [done|]. exists q, n.
    split; [done|]. rewrite normalize_node_returns.
    destruct (is_ret (py_sorted (arrange c q) (elements (node_labels n)))) eqn:Hr; [|done].
    apply py_sorted_returns in Hr as [Hlen|[Hall|Hall]].
    + apply elem_of_elements in Ht, Hp.
      destruct (elements (node_labels n)) as [|x [|y l]]; simpl in Hlen; [|  |lia].
      * by apply elem_of_nil in Ht.
      * apply list_elem_of_singleton in Ht, Hp. congruence.
    + apply elem_of_elements in Hp.
      by destruct (proj1 (Forall_forall _ _) Hall _ Hp) as [? [=]].
    + apply elem_of_elements in Ht.
      by destruct (proj1 (Forall_forall _ _) Hall _ Ht) as [? [=]].
Qed.

(** ** The graph and its degrees *)

Lemma add_nodes_shape ns G :
  foldl (λ G n, add_node (norm_id n) G) G ns =
  MkMultiDiGraph (list_to_set (map norm_id ns) ∪ G_nodes G) (G_edges G).
Proof.
  revert G. induction ns as [|n ns IH]; intros [V E]; simpl.
  - f_equal. set_solver.
  - rewrite IH. simpl. f_equal. set_solver.
Qed.

Lemma add_edges_shape es G :
  foldl (λ G e, nx_add_edge (source e) (target e) G) G es =
  MkMultiDiGraph
    (list_to_set (map source es) ∪ list_to_set (map target es) ∪ G_nodes G)
    (G_edges G ++ map (λ e, (source e, target e)) es).
Proof.
  revert G. induction es as [|e es IH]; intros [V E]; simpl.
  - rewrite app_nil_r. f_equal. set_solver.
  - rewrite IH. simpl. rewrite <- app_assoc. simpl. f_equal. set_solver.
Qed.

Lemma sum_list_indicator `{EqDecision K} (x : K) ks :
  NoDup ks → x ∈ ks → sum_list (map (λ k, if decide (x = k) then 1 else 0) ks) = 1.
Proof.
  induction 1 as [|k ks Hk Hnd IH]; [by intros ?%elem_of_nil|].
  intros Hx. simpl. case_decide as E.
  - subst k. f_equal.
    clear IH Hx Hnd. induction ks as [|k ks IH]; simpl; [done|].
    rewrite decide_False; [|intros ->; apply Hk; by left].
    apply IH. intros H. apply Hk. by right.
  - apply elem_of_cons in Hx as [->|Hx]; [done|]. by apply IH.
Qed.

Lemma sum_list_count `{EqDecision K} {A} (f : A → K) ks es :
  NoDup ks → Forall (λ e, f e ∈ ks) es →
  sum_list (map (λ k, length (filter (λ e, f e = k) es)) ks) = length es.
Proof.
  intros Hnd. induction 1 as [|e es He _ IH]; simpl.
  - clear Hnd. by induction ks.
  - rewrite <- IH. change (S ?n) with (1 + n).
    rewrite <- (sum_list_indicator (f e) ks Hnd He).
    clear. induction ks as [|k ks IHks]; simpl; [done|].
    rewrite filter_cons. case_decide; simpl; lia.
Qed.

Lemma normalize_dom c ns ns' : normalize c ns = Ret ns' → dom ns' = dom ns.
Proof.
  intros Hns. apply set_eq. intros q. rewrite !elem_of_dom.
  pose proof (normalize_lookup _ _ _ q Hns) as Hq.
  destruct (ns !! q) as [n|].
  - destruct Hq as (m & -> & _). split; eauto.
  - rewrite Hq. split; by intros [? ?].
Qed.

Lemma normalize_ids c ns ns' :
  normalize c ns = Ret ns' →
  map norm_id (map snd (map_to_list ns')) = map fst (map_to_list ns').
Proof.
  intros Hns. rewrite map_map. apply map_ext_in. intros [q m] Hin. simpl.
  apply list_elem_of_In, elem_of_map_to_list in Hin.
  pose proof (normalize_lookup _ _ _ q Hns) as Hq.
  destruct (ns !! q) as [n|]; [|congruence].
  destruct Hq as (m' & Hm' & Hnode). simplify_eq.
  by apply normalize_node_spec in Hnode as (? & _).
Qed.

(** X14. When [build] on a new builder returns, the graph [to_networkx]
    makes of it has the nodes of the builder and no other, and one edge for
    every edge of the builder, with the same ends and in the same order; so
    the degree of a node, as [export_all] tabulates it, is the number of
    stored edges that leave it plus the number that reach it, and the
    degrees of the table add up to twice the number of edges. *)
Theorem degrees_count_edges_twice c files g :
  build c files KGBuilder_init = Ret g →
  G_nodes (to_networkx g) = dom (graph_nodes g) ∧
  G_edges (to_networkx g) = map (λ e, (source e, target e)) (graph_edges g) ∧
  (∀ q, q ∈ dom (graph_nodes g) →
     deg_get (to_networkx g) q =
       length (filter (λ e, source e = q) (graph_edges g)) +
       length (filter (λ e, target e = q) (graph_edges g))) ∧
  sum_list (degree_column g) = 2 * length (graph_edges g).
Proof.
  unfold build. set (s := ingest_files files KGBuilder_init).
  destruct (normalize c (nodes s)) as [ns|] eqn:Hns; [|done].
  simpl. intros [= <-].
  assert (endpoints_ok s) as Hends.
  { unfold s. rewrite ingest_files_rows. apply endpoints_ok_ingest.
    intros e He. by apply elem_of_nil in He. }
  pose proof (normalize_dom _ _ _ Hns) as Hdom.
  pose proof (normalize_ids _ _ _ Hns) as Hids.
  assert (list_to_set (map fst (map_to_list ns)) = dom ns :> gset string) as Hkeys.
  { apply set_eq. intros q. rewrite elem_of_list_to_set, elem_of_dom, list_elem_of_fmap.
    split.
    - intros ([q' m] & -> & Hin%elem_of_map_to_list). eauto.
    - intros [m Hm]. exists (q, m). split; [done|]. by apply elem_of_map_to_list. }
  assert (G_nodes (to_networkx (MkGraph ns (edges s))) = dom ns) as HV.
  { unfold to_networkx. rewrite add_edges_shape, add_nodes_shape. simpl.
    rewrite Hids, Hkeys, Hdom. apply set_eq. intros q.
    rewrite !elem_of_union, !elem_of_list_to_set, !list_elem_of_fmap.
    split; [|by intros ?; right; left].
    intros [[(e & -> & He)|(e & -> & He)]|[H|H]];
      [by apply Hends|by apply Hends|done|by apply not_elem_of_empty in H]. }
  assert (G_edges (to_networkx (MkGraph ns (edges s))) =
          map (λ e, (source e, target e)) (edges s)) as HE.
  { unfold to_networkx. rewrite add_edges_shape, add_nodes_shape. done. }
  assert (∀ q, degree (to_networkx (MkGraph ns (edges s))) q =
               length (filter (λ e, source e = q) (edges s)) +
               length (filter (λ e, target e = q) (edges s))) as Hdeg.
  { intros q. unfold degree. rewrite HE. f_equal.
    - generalize (edges s). intros es. induction es as [|e es IH]; simpl; [done|].
      rewrite !filter_cons. simpl. case_decide; simpl; by rewrite IH.
    - generalize (edges s). intros es. induction es as [|e es IH]; simpl; [done|].
      rewrite !filter_cons. simpl. case_decide; simpl; by rewrite IH. }
  split; [exact HV|]. split; [exact HE|]. simpl. split.
  - intros q Hq. unfold deg_get. rewrite decide_True by by rewrite HV. apply Hdeg.
  - unfold degree_column. simpl.
    rewrite <- (map_map norm_id (deg_get (to_networkx (MkGraph ns (edges s))))).
    rewrite Hids.
    transitivity (sum_list (map (λ q, length (filter (λ e, source e = q) (edges s)) +
                                      length (filter (λ e, target e = q) (edges s)))
                                (map fst (map_to_list ns)))).
    { f_equal. apply map_ext_in. intros q Hq. unfold deg_get.
      rewrite decide_True; [apply Hdeg|].
      rewrite HV, <- Hkeys, elem_of_list_to_set. by apply list_elem_of_In. }
    assert (∀ (f g : string → nat) l,
              sum_list (map (λ q, f q + g q) l) = sum_list (map f l) + sum_list (map g l))
      as Hsplit.
    { intros f g0 l. induction l as [|x l IH]; simpl; [done|]. rewrite IH. lia. }
    rewrite Hsplit.
    rewrite !sum_list_count; [lia| | | |]; try apply NoDup_fst_map_to_list.
    + apply Forall_forall. intros e He.
      rewrite <- (elem_of_list_to_set (C:=gset string)), Hkeys, Hdom. by apply Hends.
    + apply Forall_forall. intros e He.
      rewrite <- (elem_of_list_to_set (C:=gset string)), Hkeys, Hdom. by apply Hends.
Qed.

Lemma degrees_count_edges_twice_witness :
  ∃ g, build as_listed [file_b; file_c] KGBuilder_init = Ret g ∧
       sum_list (degree_column g) = 2 * length (graph_edges g).
Proof.
  destruct (build as_listed [file_b; file_c] KGBuilder_init) as [g|e] eqn:E.
  - exists g. split; [done|].
    apply (degrees_count_edges_twice as_listed [file_b; file_c] g E).
  - exfalso. vm_compute in E. discriminate E.
Defined.

(** ** The label of a node that has none *)

(** X19. When [build] on a new builder returns, the label of a node of the
    graph is the empty string exactly when no label was observed for the
    node, that is when its list of labels is empty; and the label is never
    [None] nor zero. *)
Theorem empty_label_means_no_label c files g q m :
  build c files KGBuilder_init = Ret g → graph_nodes g !! q = Some m →
  (norm_label m = HStr "" ↔ norm_labels m = []) ∧
  (norm_labels m = [] ↔
   ∃ n, nodes (ingest_files files KGBuilder_init) !! q = Some n ∧ node_labels n = ∅) ∧
  falsy_key (norm_label m) = bool_decide (norm_labels m = []).
Proof.
  unfold build. set (s := ingest_files files KGBuilder_init).
  assert (call_reachable s) as Hs.
  { apply row_reachable_call_reachable. unfold s. rewrite ingest_files_rows.
    apply row_reachable_ingest. constructor. }
  destruct (normalize c (nodes s)) as [ns|] eqn:Hns; [|done].
  simpl. intros [= <-]. simpl. intros Hm.
  pose proof (normalize_lookup _ _ _ q Hns) as Hq.
  destruct (nodes s !! q) as [n|] eqn:Hn; [|congruence].
  destruct Hq as (m' & Hm' & Hnode). simplify_eq.
  destruct (normalize_node_spec _ _ _ _ Hnode) as (_ & Hperm & _ & Hempty & _).
  destruct (normalize_node_labels _ _ _ _ Hnode) as (Hin & _ & Hmin & _).
  assert (norm_labels m = [] ↔ node_labels n = ∅) as Hnil.
  { split.
    - intros E. apply set_eq. intros x. rewrite <- Hin, E. set_solver.
    - intros E. rewrite E, elements_empty in Hperm. by apply Permutation_nil_r. }
  assert (node_labels n ≠ ∅ → falsy_key (norm_label m) = false) as Hne.
  { intros Hl%Hmin. by apply (labels_truthy s q n). }
  destruct (decide (node_labels n = ∅)) as [E|E].
  - pose proof (proj2 Hnil E) as El. rewrite (Hempty E), El. simpl.
    repeat split; try done. by exists n.
  - specialize (Hne E). rewrite Hne.
    assert (norm_labels m ≠ []) as El by (by intros ?%Hnil).
    rewrite bool_decide_eq_false_2 by done.
    split; [|split; [|done]].
    + split; [|done]. intros Hl. rewrite Hl in Hne. done.
    + split; [done|]. intros (n' & [= <-] & En). done.
Qed.

Lemma empty_label_means_no_label_witness :
  ∃ g m, build as_listed [file_b; file_c] KGBuilder_init = Ret g ∧
         graph_nodes g !! "Q405" = Some m ∧
         falsy_key (norm_label m) = bool_decide (norm_labels m = []).
Proof.
  assert (∃ g, build as_listed [file_b; file_c] KGBuilder_init = Ret g ∧
               ∃ m, graph_nodes g !! "Q405" = Some m) as (g & E & m & Em).
  { eexists. split; [vm_compute; reflexivity|]. eexists. vm_compute. reflexivity. }
  exists g, m. split; [exact E|]. split; [exact Em|].
  apply (empty_label_means_no_label as_listed [file_b; file_c] g "Q405" m E Em).
Defined.
